(** * gosocks: the SOCKS5 relay engine

    A shallow embedding of [connection.go] and [socks.go].

    Conventions of the embedding.
    - A Go [byte] is a [Byte.byte]; a [[]byte] is a [list byte], the nil
      slice being [[]].
    - A Go [error] is a message with an optional wrapped error
      ([fmt.Errorf] with [%w] wraps, with [%v] it only formats); a nil
      [error] is [None].
    - A connection is a script of what its next [Read] and [Write] calls
      will do; a call for which the script is empty blocks.
    - Time is counted in connection calls: a [timeout] of [n] lets the
      background goroutine of [connectionRead]/[connectionWrite] complete
      [n] calls on the connection before the deadline of [ctx2] fires.
    - Buffered channels of capacity one are [option]s. *)

From Stdlib Require Import List Strings.String Strings.Ascii Strings.Byte ZArith Lia Bool Arith.
Import ListNotations.
Local Open Scope string_scope.
Local Open Scope list_scope.
Local Open Scope nat_scope.

Set Warnings "-register-all".

(** ** Go errors *)

Inductive error : Type :=
  GoError { Error_string : string; Unwrap : option error }.

(** [fmt.Errorf(msg)] without verbs, [errors.New(msg)]. *)
Definition Errorf (msg : string) : error :=
  {| Error_string := msg; Unwrap := None |}.

(** [fmt.Errorf(prefix + "%v", err)]: the text of [err], not wrapped. *)
Definition Errorf_v (prefix : string) (err : error) : error :=
  {| Error_string := (prefix ++ Error_string err)%string; Unwrap := None |}.

(** [fmt.Errorf(prefix + "%w", err)]: the text of [err], wrapped. *)
Definition Errorf_w (prefix : string) (err : error) : error :=
  {| Error_string := (prefix ++ Error_string err)%string; Unwrap := Some err |}.

(** [io.EOF]. *)
Definition EOF : error := Errorf "EOF".

(** ** connection.go *)

Module Connection.

Definition bufLen : nat := 1024.

(** What one call of [conn.Read] returns: bytes, or an error. *)
Inductive ReadEvent : Type :=
| RBytes (bs : list byte)
| RErr (err : error).

(** What one call of [conn.Write] does: accept at most [n] bytes of the
    buffer it is given, or fail. *)
Inductive WriteEvent : Type :=
| WAccept (n : nat)
| WErr (err : error).

(** An [io.ReadWriteCloser]: the fragments that will arrive on it, how
    its next writes behave, and the bytes it has carried away so far. *)
Record Conn : Type := MkConn {
  inbound : list ReadEvent;
  outbound : list WriteEvent;
  wire : list byte
}.

(** [conn.Read(buf)] with [len(buf) = n]. [None]: the call blocks. A
    fragment longer than the buffer is delivered in pieces. *)
Definition Read (conn : Conn) (n : nat)
  : option ((list byte + error) * Conn) :=
  match inbound conn with
  | [] => None
  | RErr err :: rest =>
      Some (inr err, MkConn rest (outbound conn) (wire conn))
  | RBytes bs :: rest =>
      if List.length bs <=? n
      then Some (inl bs, MkConn rest (outbound conn) (wire conn))
      else Some (inl (firstn n bs),
                 MkConn (RBytes (skipn n bs) :: rest) (outbound conn) (wire conn))
  end.

(** [conn.Write(p)]. [None]: the call blocks. *)
Definition Write (conn : Conn) (p : list byte)
  : option ((nat + error) * Conn) :=
  match outbound conn with
  | [] => None
  | WErr err :: rest =>
      Some (inr err, MkConn (inbound conn) rest (wire conn))
  | WAccept n :: rest =>
      let written := Nat.min n (List.length p) in
      Some (inl written,
            MkConn (inbound conn) rest (wire conn ++ firstn written p))
  end.

(** *** connectionRead *)

(** The goroutine of [connectionRead] together with the variables it
    shares with its caller. *)
Record Reader : Type := MkReader {
  r_conn : Conn;
  r_ret : list byte;                (* var ret []byte *)
  r_errChannel : option error;      (* make(chan error, 1) *)
  r_readDone : option bool;         (* make(chan bool, 1) *)
  r_running : bool                  (* the goroutine has not returned *)
}.

Definition reader_init (conn : Conn) : Reader :=
  MkReader conn [] None None true.

(** One iteration of the [for] loop of the goroutine. *)
Definition reader_step (st : Reader) : Reader :=
  if r_running st then
    match Read (r_conn st) bufLen with
    | None => st
    | Some (inr err, conn') =>
        MkReader conn' (r_ret st) (Some err) (r_readDone st) false
    | Some (inl chunk, conn') =>
        let ret := r_ret st ++ chunk in
        if List.length chunk <? bufLen
        then MkReader conn' ret (r_errChannel st) (Some true) false
        else MkReader conn' ret (r_errChannel st) (r_readDone st) true
    end
  else st.

Definition reader_run (timeout : nat) (conn : Conn) : Reader :=
  Nat.iter timeout reader_step (reader_init conn).

Definition read_timeout_error : error :=
  Errorf "timeout when reading on connection".

(** The [select] of [connectionRead], taken when the deadline fires or a
    channel holds a value, whichever comes first. *)
Definition reader_select (st : Reader) : list byte * option error :=
  match r_errChannel st, r_readDone st with
  | Some err, _ => ([], Some err)
  | None, Some _ => (r_ret st, None)
  | None, None => ([], Some read_timeout_error)
  end.

Definition connectionRead (conn : Conn) (timeout : nat)
  : (list byte * option error) * Conn :=
  let st := reader_run timeout conn in
  (reader_select st, r_conn st).

(** *** connectionWrite *)

Record Writer : Type := MkWriter {
  w_conn : Conn;
  w_toWriteLeft : Z;                (* toWriteLeft := len(data) *)
  w_errChannel : option error;
  w_writeDone : option bool;
  w_running : bool
}.

Definition writer_init (conn : Conn) (data : list byte) : Writer :=
  MkWriter conn (Z.of_nat (List.length data)) None None true.

(** One iteration of the [for] loop: [conn.Write(data)] is called on the
    whole of [data] each time. *)
Definition writer_step (data : list byte) (st : Writer) : Writer :=
  if w_running st then
    match Write (w_conn st) data with
    | None => st
    | Some (inr err, conn') =>
        MkWriter conn' (w_toWriteLeft st) (Some err) (w_writeDone st) false
    | Some (inl written, conn') =>
        if (Z.of_nat written =? w_toWriteLeft st)%Z
        then MkWriter conn' (w_toWriteLeft st) (w_errChannel st) (Some true) false
        else MkWriter conn' (w_toWriteLeft st - Z.of_nat written)%Z
                      (w_errChannel st) (w_writeDone st) true
    end
  else st.

Definition writer_run (timeout : nat) (conn : Conn) (data : list byte) : Writer :=
  Nat.iter timeout (writer_step data) (writer_init conn data).

Definition write_timeout_error : error :=
  Errorf "timeout when writing to connection".

Definition writer_select (st : Writer) : option error :=
  match w_errChannel st, w_writeDone st with
  | Some err, _ => Some err
  | None, Some _ => None
  | None, None => Some write_timeout_error
  end.

Definition connectionWrite (conn : Conn) (data : list byte) (timeout : nat)
  : option error * Conn :=
  let st := writer_run timeout conn data in
  (writer_select st, w_conn st).

End Connection.

(** ** The wire vocabulary of the package

    [socks.go] uses the types and constants below and three codec
    functions; none of them is defined in [connection.go] or [socks.go]. *)

(** Modelled from the spec: the constants [Version4], [Version5] and
    [MethodNoAuthRequired] are missing; the spec gives the protocol
    versions as 4 and 5 and the selection reply as the bytes 5, 0. *)
Definition Version4 : byte := x04.
Definition Version5 : byte := x05.
Definition MethodNoAuthRequired : byte := x00.

(** Modelled from the spec: the type [Header] is missing; the spec gives
    a greeting as a version and the methods the client offers. *)
Record Header : Type := MkHeader {
  Version : byte;
  Methods : list byte
}.

(** Modelled from the spec: the type [RequestReplyReason] is missing; the
    spec lists it as this closed enumeration. *)
Inductive RequestReplyReason : Type :=
| RequestReplySucceeded
| RequestReplyGeneralFailure
| RequestReplyConnectionNotAllowed
| RequestReplyNetworkUnreachable
| RequestReplyHostUnreachable
| RequestReplyConnectionRefused
| RequestReplyTTLExpired
| RequestReplyCommandNotSupported
| RequestReplyAddressTypeNotSupported
| RequestReplyMethodNotSupported.

(** Modelled from the spec: the type [Error] is missing; the spec gives
    it as a reason and a cause. *)
Record Error : Type := MkError {
  Reason : RequestReplyReason;
  Err : error
}.

(** Modelled from the spec: the type [Request] is missing; the spec gives
    it these fields. [socks.go] only passes it on. *)
Record Request : Type := MkRequest {
  req_Version : byte;
  req_Command : byte;
  req_AddressType : byte;
  req_DestinationAddress : list byte;
  req_DestinationPort : N
}.

(** A [net.Addr], here an IP address and a port. *)
Record Addr : Type := MkAddr {
  addr_IP : list byte;
  addr_Port : N
}.

(** The codec functions [parseHeader], [parseRequest] and [requestReply]
    are missing from the sources: they are parameters of the engine. *)
Record Codec : Type := MkCodec {
  parseHeader : list byte -> Header + error;
  parseRequest : list byte -> Request + Error;
  requestReply : option Addr -> RequestReplyReason -> list byte + error
}.

(** [fmt.Errorf("%#x", b)] for a byte: lower-case hexadecimal, no
    leading zero, prefixed by [0x]. *)
Definition hex_digit (n : N) : ascii :=
  match n with
  | 0 => "0" | 1 => "1" | 2 => "2" | 3 => "3" | 4 => "4" | 5 => "5"
  | 6 => "6" | 7 => "7" | 8 => "8" | 9 => "9" | 10 => "a" | 11 => "b"
  | 12 => "c" | 13 => "d" | 14 => "e" | _ => "f"
  end%N%char.

Definition fmt_sharp_x (b : byte) : string :=
  let n := Byte.to_N b in
  let lo := String (hex_digit (n mod 16)) EmptyString in
  ("0x" ++ (if (n <? 16)%N then lo else String (hex_digit (n / 16)) lo))%string.

(** ** socks.go *)

Module Socks.
Import Connection.

(** The collaborator behind [p.Proxyhandler]. A copy collaborator is
    given by the outcome it reports for this session. *)
Record Remote : Type := MkRemote {
  LocalAddr : option Addr   (* [remote.(net.Conn)] succeeded: its [LocalAddr()] *)
}.

Record ProxyHandler : Type := MkProxyHandler {
  PreHandler : Request -> Remote + Error;
  CopyFromClientToRemote : option error;
  CopyFromRemoteToClient : option error;
  Cleanup : option error
}.

Record Proxy : Type := MkProxy {
  Timeout : nat;
  Done : bool;               (* [p.Done] is closed when the session starts *)
  Proxyhandler : ProxyHandler
}.

(** What a session does that its peers can observe, in order. *)
Inductive Event : Type :=
| EvRead                              (* a [connectionRead] on the client *)
| EvWrite (data : list byte)          (* a [connectionWrite] of [data] to the client *)
| EvPreHandler
| EvCopyFromClientToRemote
| EvCopyFromRemoteToClient
| EvRefresh
| EvCancel
| EvCloseRemote
| EvCleanup
| EvCloseClient.

Record Session : Type := MkSession {
  client : Conn;
  trace : list Event
}.

Definition log (ev : Event) (s : Session) : Session :=
  MkSession (client s) (trace s ++ [ev]).

(** [connectionRead(ctx, conn, p.Timeout)] on the client connection. *)
Definition clientRead (p : Proxy) (s : Session)
  : (list byte * option error) * Session :=
  let '(r, conn') := connectionRead (client s) (Timeout p) in
  (r, MkSession conn' (trace s ++ [EvRead])).

(** [connectionWrite(ctx, conn, data, p.Timeout)] on the client connection. *)
Definition clientWrite (p : Proxy) (data : list byte) (s : Session)
  : option error * Session :=
  let '(r, conn') := connectionWrite (client s) data (Timeout p) in
  (r, MkSession conn' (trace s ++ [EvWrite data])).

(** The loop over [header.Methods]. *)
Fixpoint methodSupported (methods : list byte) : bool :=
  match methods with
  | [] => false
  | x :: rest => if Byte.eqb x MethodNoAuthRequired then true else methodSupported rest
  end.

Definition handleConnect (cd : Codec) (p : Proxy) (s : Session)
  : option Error * Session :=
  match clientRead p s with
  | ((_, Some err), s1) =>
      (Some (MkError RequestReplyConnectionRefused err), s1)
  | ((buf, None), s1) =>
      match parseHeader cd buf with
      | inr err => (Some (MkError RequestReplyConnectionRefused err), s1)
      | inl header =>
          if Byte.eqb (Version header) Version4 then
            (Some (MkError RequestReplyCommandNotSupported
                     (Errorf "socks4 not yet implemented")), s1)
          else if Byte.eqb (Version header) Version5 then
            if negb (methodSupported (Methods header)) then
              (Some (MkError RequestReplyMethodNotSupported
                       (Errorf "we currently only support no authentication")), s1)
            else
              let reply := [Version5; MethodNoAuthRequired] in
              match clientWrite p reply s1 with
              | (Some err, s2) =>
                  (Some (MkError RequestReplyGeneralFailure
                           (Errorf_w "could not send connect reply: " err)), s2)
              | (None, s2) => (None, s2)
              end
          else
            (Some (MkError RequestReplyCommandNotSupported
                     (Errorf ("version " ++ fmt_sharp_x (Version header)
                              ++ " not yet implemented")%string)), s1)
      end
  end.

Definition handleRequest (cd : Codec) (p : Proxy) (s : Session)
  : (Request + Error) * Session :=
  match clientRead p s with
  | ((_, Some err), s1) =>
      (inr (MkError RequestReplyGeneralFailure
              (Errorf_w "error on ConnectionRead: " err)), s1)
  | ((buf, None), s1) =>
      match parseRequest cd buf with
      | inr err2 => (inr err2, s1)
      | inl request => (inl request, s1)
      end
  end.

Definition handleRequestReply (cd : Codec) (p : Proxy) (addr : option Addr) (s : Session)
  : option Error * Session :=
  match requestReply cd addr RequestReplySucceeded with
  | inr err =>
      (Some (MkError RequestReplyGeneralFailure
               (Errorf_w "error on requestReply: " err)), s)
  | inl repl =>
      match clientWrite p repl s with
      | (Some err, s1) =>
          (Some (MkError RequestReplyGeneralFailure
                   (Errorf_w "error on RequestResponse: " err)), s1)
      | (None, s1) => (None, s1)
      end
  end.

Definition socksErrorReply (cd : Codec) (p : Proxy) (reason : RequestReplyReason) (s : Session)
  : option error * Session :=
  match requestReply cd None reason with
  | inr err => (Some err, s)
  | inl repl =>
      match clientWrite p repl s with
      | (Some err, s1) => (Some err, s1)
      | (None, s1) => (None, s1)
      end
  end.

(** *** The relay: two copy goroutines joined by [wg.Wait]

    The goroutines run in an order the scheduler picks. A copy goroutine
    takes two steps: it starts (the [select] on [p.Done], then the call
    of the collaborator) and, if it called the collaborator, it returns
    when the collaborator does. [p.Done] may be closed in between. *)

Inductive Task : Type := NotStarted | Copying | Returned.

Record Relay : Type := MkRelay {
  shutdown : bool;                          (* [p.Done] is closed *)
  task1 : Task;                             (* [copyClientToRemote] *)
  task2 : Task;                             (* [copyRemoteToClient] *)
  errChannel1 : option (option error);      (* make(chan error, 1) *)
  errChannel2 : option (option error);      (* make(chan error, 1) *)
  wg : nat;                                 (* the counter of the WaitGroup *)
  events : list Event
}.

Inductive Action : Type :=
| StartClientToRemote
| ReturnClientToRemote
| StartRemoteToClient
| ReturnRemoteToClient
| Shutdown.

(** [copyClientToRemote], up to the call of the collaborator. *)
Definition copyClientToRemote_start (p : Proxy) (st : Relay) : Relay :=
  match task1 st with
  | NotStarted =>
      if shutdown st
      then MkRelay (shutdown st) Returned (task2 st)
                   (Some None) (errChannel2 st) (wg st - 1) (events st)
      else MkRelay (shutdown st) Copying (task2 st)
                   (errChannel1 st) (errChannel2 st) (wg st)
                   (events st ++ [EvCopyFromClientToRemote])
  | _ => st
  end.

(** What [copyClientToRemote] sends once the collaborator has returned. *)
Definition clientToRemote_report (p : Proxy) : option error :=
  match CopyFromClientToRemote (Proxyhandler p) with
  | Some err => Some (Errorf_v "error on copy from Client to Remote: " err)
  | None => None
  end.

(** [copyClientToRemote], from the return of the collaborator. *)
Definition copyClientToRemote_return (p : Proxy) (st : Relay) : Relay :=
  match task1 st with
  | Copying =>
      MkRelay (shutdown st) Returned (task2 st)
              (Some (clientToRemote_report p)) (errChannel2 st)
              (wg st - 1) (events st)
  | _ => st
  end.

(** [copyRemoteToClient], up to the call of the collaborator. *)
Definition copyRemoteToClient_start (p : Proxy) (st : Relay) : Relay :=
  match task2 st with
  | NotStarted =>
      if shutdown st
      then MkRelay (shutdown st) (task1 st) Returned
                   (errChannel1 st) (Some None) (wg st - 1) (events st)
      else MkRelay (shutdown st) (task1 st) Copying
                   (errChannel1 st) (errChannel2 st) (wg st)
                   (events st ++ [EvCopyFromRemoteToClient])
  | _ => st
  end.

(** What [copyRemoteToClient] sends once the collaborator has returned. *)
Definition remoteToClient_report (p : Proxy) : option error :=
  match CopyFromRemoteToClient (Proxyhandler p) with
  | Some err => Some (Errorf_v "error on copy from Remote to Client: " err)
  | None => None
  end.

(** [copyRemoteToClient], from the return of the collaborator. *)
Definition copyRemoteToClient_return (p : Proxy) (st : Relay) : Relay :=
  match task2 st with
  | Copying =>
      MkRelay (shutdown st) (task1 st) Returned
              (errChannel1 st) (Some (remoteToClient_report p))
              (wg st - 1) (events st)
  | _ => st
  end.

Definition relay_step (p : Proxy) (st : Relay) (a : Action) : Relay :=
  match a with
  | StartClientToRemote => copyClientToRemote_start p st
  | ReturnClientToRemote => copyClientToRemote_return p st
  | StartRemoteToClient => copyRemoteToClient_start p st
  | ReturnRemoteToClient => copyRemoteToClient_return p st
  | Shutdown =>
      MkRelay true (task1 st) (task2 st)
              (errChannel1 st) (errChannel2 st) (wg st) (events st)
  end.

Definition relay_run (p : Proxy) (sched : list Action) (st : Relay) : Relay :=
  fold_left (relay_step p) sched st.

(** [wg.Add(2)] and the three [go] statements. *)
Definition relay_init (p : Proxy) (s : Session) : Relay :=
  MkRelay (Done p) NotStarted NotStarted None None 2 (trace s ++ [EvRefresh]).

(** Every goroutine is scheduled in the end and the collaborators
    return: whatever the scheduler did first, these steps follow (a step
    already taken does nothing). *)
Definition fair : list Action :=
  [StartClientToRemote; ReturnClientToRemote;
   StartRemoteToClient; ReturnRemoteToClient].

(** [<-errChannel]: the value sent, or nil from a closed empty channel. *)
Definition receive (ch : option (option error)) : option error :=
  match ch with
  | Some v => v
  | None => None
  end.

(** The end of [socks], after [wg.Wait()] and [cancel()]. *)
Definition collect (st : Relay) : option Error :=
  match receive (errChannel1 st) with
  | Some err => Some (MkError RequestReplyHostUnreachable err)
  | None =>
      match receive (errChannel2 st) with
      | Some err => Some (MkError RequestReplyHostUnreachable err)
      | None => None
      end
  end.

(** [socks] from [wg := &sync.WaitGroup{}] on. *)
Definition relay (p : Proxy) (sched : list Action) (s : Session)
  : option Error * Session :=
  let st := relay_run p (sched ++ fair) (relay_init p s) in
  (collect st, MkSession (client s) (events st ++ [EvCancel])).

(** [socks]; the deferred [remote.Close()] and [Cleanup()] run on the
    way out. *)
Definition socks (cd : Codec) (p : Proxy) (sched : list Action) (s : Session)
  : option Error * Session :=
  let '(result, s') :=
    match handleConnect cd p s with
    | (Some err, s1) => (Some err, s1)
    | (None, s1) =>
        match handleRequest cd p s1 with
        | (inr err, s2) => (Some err, s2)
        | (inl request, s2) =>
            match PreHandler (Proxyhandler p) request with
            | inr err => (Some err, log EvPreHandler s2)
            | inl remote =>
                let '(result, s4) :=
                  match handleRequestReply cd p (LocalAddr remote) (log EvPreHandler s2) with
                  | (Some err, s3) => (Some err, s3)
                  | (None, s3) => relay p sched s3
                  end in
                (result, log EvCloseRemote s4)
            end
        end
    end in
  (result, log EvCleanup s').

(** *** Invariants of the relay *)

Definition pending (t : Task) : nat :=
  match t with
  | Returned => 0
  | _ => 1
  end.

(** A goroutine has sent on its channel exactly when it has returned,
    and [wg] counts the goroutines that have not. *)
Definition relay_inv (st : Relay) : Prop :=
  wg st = pending (task1 st) + pending (task2 st)
  /\ (task1 st = Returned <-> errChannel1 st <> None)
  /\ (task2 st = Returned <-> errChannel2 st <> None).

(** No shutdown so far: a goroutine that returned reported what its
    collaborator did. *)
Definition live_inv (p : Proxy) (st : Relay) : Prop :=
  shutdown st = false
  /\ (task1 st = Returned -> errChannel1 st = Some (clientToRemote_report p))
  /\ (task2 st = Returned -> errChannel2 st = Some (remoteToClient_report p)).

(** Shut down from the start: no collaborator is called, and a goroutine
    that returned reported nil. *)
Definition down_inv (evs : list Event) (st : Relay) : Prop :=
  shutdown st = true
  /\ events st = evs
  /\ task1 st <> Copying /\ task2 st <> Copying
  /\ (task1 st = Returned -> errChannel1 st = Some None)
  /\ (task2 st = Returned -> errChannel2 st = Some None).

(** Both collaborators were called: whatever happens to [p.Done] later,
    each goroutine reports what its collaborator did. *)
Definition started_inv (p : Proxy) (evs : list Event) (st : Relay) : Prop :=
  events st = evs
  /\ task1 st <> NotStarted /\ task2 st <> NotStarted
  /\ (task1 st = Returned -> errChannel1 st = Some (clientToRemote_report p))
  /\ (task2 st = Returned -> errChannel2 st = Some (remoteToClient_report p)).

(** The session result as the specification words it: a failure with
    reason HostUnreachable around the error a copy direction reported,
    success when neither reported one. *)
Definition spec_relay_result (o1 o2 : option error) : option Error :=
  match o1, o2 with
  | None, None => None
  | Some err, _ => Some (MkError RequestReplyHostUnreachable err)
  | None, Some err => Some (MkError RequestReplyHostUnreachable err)
  end.

Definition handle (cd : Codec) (p : Proxy) (sched : list Action) (conn : Conn)
  : Session :=
  let s' :=
    match socks cd p sched (MkSession conn []) with
    | (Some err, s1) => snd (socksErrorReply cd p (Reason err) s1)
    | (None, s1) => s1
    end in
  log EvCloseClient s'.

End Socks.

(** ** A codec for concrete sessions

    The engine is verified for every codec. The concrete sessions below
    run it with this one. *)

Module SpecCodec.

(** Modelled from the spec: [parseHeader] is missing; the spec says it
    expects at least two bytes, the version and the number N of
    methods, followed by N method bytes, and fails on a short buffer. *)
Definition spec_parseHeader (buf : list byte) : Header + error :=
  match buf with
  | version :: n :: methods =>
      let count := N.to_nat (Byte.to_N n) in
      if List.length methods <? count
      then inr (Errorf "header too short")
      else inl (MkHeader version (firstn count methods))
  | _ => inr (Errorf "header too short")
  end.

(** Modelled from the spec: [parseRequest] is missing; the spec says it
    expects version, command, reserved byte, address type, the address
    (4 bytes for IPv4, length-prefixed for a domain name, 16 bytes for
    IPv6) and a big-endian port of 2 bytes, and fails with
    CommandNotSupported on an unknown address type and with
    GeneralFailure on a truncated buffer. The address types are those of
    RFC 1928. *)
Definition spec_parseRequest (buf : list byte) : Request + Error :=
  let truncated := inr (MkError RequestReplyGeneralFailure (Errorf "request too short")) in
  match buf with
  | version :: command :: _ :: atyp :: rest =>
      let body :=
        if Byte.eqb atyp x01 then Some (4, rest)
        else if Byte.eqb atyp x04 then Some (16, rest)
        else if Byte.eqb atyp x03 then
          match rest with
          | len :: rest' => Some (N.to_nat (Byte.to_N len), rest')
          | [] => Some (1, [])
          end
        else None in
      match body with
      | None =>
          inr (MkError RequestReplyCommandNotSupported (Errorf "unknown address type"))
      | Some (n, rest') =>
          match skipn n rest' with
          | hi :: lo :: _ =>
              if List.length rest' <? n + 2 then truncated
              else inl (MkRequest version command atyp (firstn n rest')
                          (Byte.to_N hi * 256 + Byte.to_N lo)%N)
          | _ => truncated
          end
      end
  | _ => truncated
  end.

(** Modelled from the spec: the numeric value of a reason is missing;
    the spec names the reasons of RFC 1928, whose values are these, and
    one extension of the engine, whose value it does not give. *)
Definition reasonCode (reason : RequestReplyReason) : byte :=
  match reason with
  | RequestReplySucceeded => x00
  | RequestReplyGeneralFailure => x01
  | RequestReplyConnectionNotAllowed => x02
  | RequestReplyNetworkUnreachable => x03
  | RequestReplyHostUnreachable => x04
  | RequestReplyConnectionRefused => x05
  | RequestReplyTTLExpired => x06
  | RequestReplyCommandNotSupported => x07
  | RequestReplyAddressTypeNotSupported => x08
  | RequestReplyMethodNotSupported => xff
  end.

Definition byte_of_N (n : N) : byte :=
  match Byte.of_N (n mod 256) with
  | Some b => b
  | None => x00
  end.

(** Modelled from the spec: [requestReply] is missing; the spec says it
    serializes version 5, the reason, a reserved byte, the address type,
    the address and the big-endian port, and a zero IPv4 address and
    port 0 when there is no bound address. *)
Definition spec_requestReply (addr : option Addr) (reason : RequestReplyReason)
  : list byte + error :=
  match addr with
  | None =>
      inl [x05; reasonCode reason; x00; x01; x00; x00; x00; x00; x00; x00]
  | Some a =>
      let port := [byte_of_N (addr_Port a / 256); byte_of_N (addr_Port a)] in
      if List.length (addr_IP a) =? 4
      then inl ([x05; reasonCode reason; x00; x01] ++ addr_IP a ++ port)
      else if List.length (addr_IP a) =? 16
      then inl ([x05; reasonCode reason; x00; x04] ++ addr_IP a ++ port)
      else inr (Errorf "unknown address type")
  end.

Definition codec : Codec :=
  MkCodec spec_parseHeader spec_parseRequest spec_requestReply.

(** The greeting [05 01 00] and the request
    [05 01 00 01 7F 00 00 01 00 50] of the end-to-end scenario. *)
Definition greeting : list byte := [x05; x01; x00].
Definition connect_request : list byte :=
  [x05; x01; x00; x01; x7f; x00; x00; x01; x00; x50].

End SpecCodec.

(** ** Concrete sessions *)

Module Scenario.
Import Connection Socks SpecCodec.

Definition reset : error := Errorf "connection reset by peer".

(** A collaborator that dials a transport without a local address and
    whose copy directions report [c2r] and [r2c]. *)
Definition handler (c2r r2c : option error) : ProxyHandler :=
  MkProxyHandler (fun _ => inl (MkRemote None)) c2r r2c None.

Definition proxy (done : bool) (c2r r2c : option error) : Proxy :=
  MkProxy 3 done (handler c2r r2c).

(** A client that sends [frames] one read at a time and takes every
    write whole. *)
Definition client_sending (frames : list (list byte)) : Conn :=
  MkConn (map RBytes frames) [WAccept 1024; WAccept 1024; WAccept 1024] [].

Definition full_chunk : list byte := repeat x00 bufLen.

End Scenario.

(** ** Observations on connections and traces *)

Module Observe.
Import Connection Socks.

(** The bytes a connection will deliver, in order, whatever the
    fragmentation and the errors in between. *)
Definition stream (evs : list ReadEvent) : list byte :=
  flat_map (fun ev => match ev with RBytes bs => bs | RErr _ => [] end) evs.

Definition count (f : Event -> bool) (evs : list Event) : nat :=
  List.length (filter f evs).

Definition is_read (ev : Event) : bool :=
  match ev with EvRead => true | _ => false end.
Definition is_write (ev : Event) : bool :=
  match ev with EvWrite _ => true | _ => false end.
Definition is_preHandler (ev : Event) : bool :=
  match ev with EvPreHandler => true | _ => false end.
Definition is_copyClientToRemote (ev : Event) : bool :=
  match ev with EvCopyFromClientToRemote => true | _ => false end.
Definition is_copyRemoteToClient (ev : Event) : bool :=
  match ev with EvCopyFromRemoteToClient => true | _ => false end.
Definition is_copy (ev : Event) : bool :=
  is_copyClientToRemote ev || is_copyRemoteToClient ev.
Definition is_refresh (ev : Event) : bool :=
  match ev with EvRefresh => true | _ => false end.
Definition is_closeRemote (ev : Event) : bool :=
  match ev with EvCloseRemote => true | _ => false end.
Definition is_cleanup (ev : Event) : bool :=
  match ev with EvCleanup => true | _ => false end.

(** The counter [toWriteLeft] and the bytes on the wire add up to the
    length of [data] until [writeDone] is sent; from then on the wire
    has grown by that length. *)
Definition writer_inv (conn : Conn) (data : list byte) (st : Writer) : Prop :=
  inbound (w_conn st) = inbound conn
  /\ match w_writeDone st with
     | None =>
         (Z.of_nat (List.length (wire (w_conn st))) + w_toWriteLeft st
          = Z.of_nat (List.length (wire conn) + List.length data))%Z
     | Some _ =>
         w_running st = false
         /\ List.length (wire (w_conn st))
            = List.length (wire conn) + List.length data
     end.

(** [p.Done] was closed after [copyClientToRemote] had called its
    collaborator and before [copyRemoteToClient] started. *)
Definition shut_after_first_inv (p : Proxy) (evs : list Event) (st : Relay) : Prop :=
  shutdown st = true
  /\ events st = evs
  /\ task1 st <> NotStarted /\ task2 st <> Copying
  /\ (task1 st = Returned -> errChannel1 st = Some (clientToRemote_report p))
  /\ (task2 st = Returned -> errChannel2 st = Some None).

(** The same with the directions exchanged. *)
Definition shut_after_second_inv (p : Proxy) (evs : list Event) (st : Relay) : Prop :=
  shutdown st = true
  /\ events st = evs
  /\ task1 st <> Copying /\ task2 st <> NotStarted
  /\ (task1 st = Returned -> errChannel1 st = Some None)
  /\ (task2 st = Returned -> errChannel2 st = Some (remoteToClient_report p)).

(** How many calls a goroutine in state [t] can have made. *)
Definition called (t : Task) : nat :=
  match t with
  | NotStarted => 0
  | _ => 1
  end.

(** The relay has added to [base] only calls of the copy
    collaborators, at most one for a goroutine that has started and
    none for one that has not. *)
Definition calls_inv (base : list Event) (st : Relay) : Prop :=
  exists more,
    events st = base ++ more
    /\ forallb is_copy more = true
    /\ count is_copyClientToRemote more <= called (task1 st)
    /\ count is_copyRemoteToClient more <= called (task2 st).

(** The events of a session up to the deferred [Cleanup], by the
    place where [socks] returns. *)
Inductive session_shape : list Event -> Prop :=
| shape_greeting :
    (* [handleConnect] failed before its write *)
    session_shape [EvRead]
| shape_selection :
    (* the write of the selection reply failed *)
    session_shape [EvRead; EvWrite [x05; x00]]
| shape_request :
    (* [handleRequest] failed *)
    session_shape [EvRead; EvWrite [x05; x00]; EvRead]
| shape_dial :
    (* [PreHandler] failed *)
    session_shape [EvRead; EvWrite [x05; x00]; EvRead; EvPreHandler]
| shape_encode :
    (* [requestReply] failed *)
    session_shape [EvRead; EvWrite [x05; x00]; EvRead; EvPreHandler; EvCloseRemote]
| shape_reply (repl : list byte) :
    (* the write of the success reply failed *)
    session_shape [EvRead; EvWrite [x05; x00]; EvRead; EvPreHandler;
                   EvWrite repl; EvCloseRemote]
| shape_relay (repl : list byte) (more : list Event) :
    (* the relay ran *)
    forallb is_copy more = true ->
    session_shape ([EvRead; EvWrite [x05; x00]; EvRead; EvPreHandler;
                    EvWrite repl; EvRefresh] ++ more ++ [EvCancel; EvCloseRemote]).

End Observe.

(** * Properties of connection.go *)

Section ConnectionFacts.
Import Connection.

(** A goroutine that has returned takes no further step. *)
Lemma reader_returned (n : nat) (st : Reader) :
  r_running st = false -> Nat.iter n reader_step st = st.
Proof.
  intros Hstop. induction n as [|n IH]; [reflexivity|].
  rewrite Nat.iter_succ, IH. unfold reader_step. now rewrite Hstop.
Qed.


(** Reading a full chunk keeps the loop going. *)
Lemma reader_step_full (chunk : list byte) tail out w ret :
  List.length chunk = bufLen ->
  reader_step (MkReader (MkConn (RBytes chunk :: tail) out w) ret None None true)
  = MkReader (MkConn tail out w) (ret ++ chunk) None None true.
Proof.
  intros Hlen. unfold reader_step, Read. cbn [r_running r_conn inbound outbound wire r_ret r_errChannel r_readDone].
  assert (Hle : (List.length chunk <=? bufLen) = true) by (apply Nat.leb_le; lia).
  assert (Hlt : (List.length chunk <? bufLen) = false) by (apply Nat.ltb_ge; lia).
  rewrite Hle, Hlt. reflexivity.
Qed.

(** Reading a short chunk ends the loop through [readDone]. *)
Lemma reader_step_short (chunk : list byte) tail out w ret :
  List.length chunk < bufLen ->
  reader_step (MkReader (MkConn (RBytes chunk :: tail) out w) ret None None true)
  = MkReader (MkConn tail out w) (ret ++ chunk) None (Some true) false.
Proof.
  intros Hlen. unfold reader_step, Read. cbn [r_running r_conn inbound outbound wire r_ret r_errChannel r_readDone].
  assert (Hle : (List.length chunk <=? bufLen) = true) by (apply Nat.leb_le; lia).
  assert (Hlt : (List.length chunk <? bufLen) = true) by (apply Nat.ltb_lt; lia).
  rewrite Hle, Hlt. reflexivity.
Qed.

(** A read error ends the loop through [errChannel]. *)
Lemma reader_step_error (err : error) tail out w ret :
  reader_step (MkReader (MkConn (RErr err :: tail) out w) ret None None true)
  = MkReader (MkConn tail out w) ret (Some err) None false.
Proof. reflexivity. Qed.

Lemma reader_full_chunks (full : list (list byte)) tail out w :
  Forall (fun chunk => List.length chunk = bufLen) full ->
  forall ret,
    Nat.iter (List.length full) reader_step
      (MkReader (MkConn (map RBytes full ++ tail) out w) ret None None true)
    = MkReader (MkConn tail out w) (ret ++ List.concat full) None None true.
Proof.
  induction 1 as [|chunk full Hlen _ IH]; intros ret.
  - cbn. now rewrite app_nil_r.
  - cbn [List.length map app List.concat]. rewrite Nat.iter_succ_r.
    rewrite reader_step_full by exact Hlen.
    rewrite IH. now rewrite app_assoc.
Qed.

(** The state of the reader at a deadline later than the first read that
    ends its loop. *)
Lemma reader_run_split (n timeout : nat) (conn : Conn) :
  n < timeout ->
  r_running (Nat.iter (S n) reader_step (reader_init conn)) = false ->
  reader_run timeout conn = Nat.iter (S n) reader_step (reader_init conn).
Proof.
  intros Hlt Hstop. unfold reader_run.
  replace timeout with ((timeout - S n) + S n) by lia.
  rewrite Nat.iter_add. now apply reader_returned.
Qed.

(** C3 (as amended): full chunks followed by a short one are returned
    whole, once, and the read stops at the short one: what arrives
    later stays on the connection. *)
Theorem connectionRead_frame
    (full : list (list byte)) (last : list byte) (tail : list ReadEvent)
    (out : list WriteEvent) (w : list byte) (timeout : nat) :
  Forall (fun chunk => List.length chunk = bufLen) full ->
  List.length last < bufLen ->
  List.length full < timeout ->
  connectionRead (MkConn (map RBytes full ++ RBytes last :: tail) out w) timeout
  = ((List.concat full ++ last, None), MkConn tail out w).
Proof.
  intros Hfull Hlast Htime.
  assert (Hrun : Nat.iter (S (List.length full)) reader_step
                   (reader_init (MkConn (map RBytes full ++ RBytes last :: tail) out w))
                 = MkReader (MkConn tail out w) (List.concat full ++ last) None (Some true) false).
  { rewrite Nat.iter_succ. unfold reader_init.
    rewrite reader_full_chunks by exact Hfull.
    now rewrite reader_step_short. }
  unfold connectionRead.
  rewrite (reader_run_split (List.length full)) by (rewrite ?Hrun; auto).
  rewrite Hrun. reflexivity.
Qed.

(** C10: an error after any number of full chunks is returned with nil
    data; the chunks read before it are dropped. *)
Theorem connectionRead_error_discards
    (full : list (list byte)) (err : error) (tail : list ReadEvent)
    (out : list WriteEvent) (w : list byte) (timeout : nat) :
  Forall (fun chunk => List.length chunk = bufLen) full ->
  List.length full < timeout ->
  connectionRead (MkConn (map RBytes full ++ RErr err :: tail) out w) timeout
  = (([], Some err), MkConn tail out w).
Proof.
  intros Hfull Htime.
  assert (Hrun : Nat.iter (S (List.length full)) reader_step
                   (reader_init (MkConn (map RBytes full ++ RErr err :: tail) out w))
                 = MkReader (MkConn tail out w) (List.concat full) (Some err) None false).
  { rewrite Nat.iter_succ. unfold reader_init.
    rewrite reader_full_chunks by exact Hfull.
    now rewrite reader_step_error. }
  unfold connectionRead.
  rewrite (reader_run_split (List.length full)) by (rewrite ?Hrun; auto).
  rewrite Hrun. reflexivity.
Qed.

(** While the goroutine runs, it has sent nothing. *)
Lemma reader_running_silent (timeout : nat) (conn : Conn) :
  r_running (reader_run timeout conn) = true ->
  r_errChannel (reader_run timeout conn) = None
  /\ r_readDone (reader_run timeout conn) = None.
Proof.
  unfold reader_run. induction timeout as [|n IH]; [now cbn|].
  rewrite Nat.iter_succ.
  set (st := Nat.iter n reader_step (reader_init conn)) in *.
  unfold reader_step.
  destruct (r_running st) eqn:Hrun; [|intros H; congruence].
  destruct (IH eq_refl) as [Herr Hdone].
  destruct (Read (r_conn st) bufLen) as [[[chunk|err] conn']|];
    [destruct (List.length chunk <? bufLen)| |];
    cbn; intros H; (discriminate H || auto).
Qed.

Lemma writer_running_silent (timeout : nat) (conn : Conn) (data : list byte) :
  w_running (writer_run timeout conn data) = true ->
  w_errChannel (writer_run timeout conn data) = None
  /\ w_writeDone (writer_run timeout conn data) = None.
Proof.
  unfold writer_run. induction timeout as [|n IH]; [now cbn|].
  rewrite Nat.iter_succ.
  set (st := Nat.iter n (writer_step data) (writer_init conn data)) in *.
  unfold writer_step.
  destruct (w_running st) eqn:Hrun; [|intros H; congruence].
  destruct (IH eq_refl) as [Herr Hdone].
  destruct (Write (w_conn st) data) as [[[written|err] conn']|];
    [destruct (Z.of_nat written =? w_toWriteLeft st)%Z| |];
    cbn; intros H; (discriminate H || auto).
Qed.

(** C4: when the deadline fires while the goroutine is still running
    (it has reached neither [readDone]/[writeDone] nor [errChannel]),
    the call returns the timeout error, and [connectionRead] returns nil
    data whatever [ret] holds by then; a read that succeeds returns the
    [ret] of a goroutine that has returned. *)
Theorem timeout_before_terminal_event
    (conn : Conn) (data : list byte) (timeout : nat) :
  (r_running (reader_run timeout conn) = true ->
   fst (connectionRead conn timeout) = ([], Some read_timeout_error))
  /\
  (w_running (writer_run timeout conn data) = true ->
   fst (connectionWrite conn data timeout) = Some write_timeout_error)
  /\
  (snd (fst (connectionRead conn timeout)) = None ->
   r_running (reader_run timeout conn) = false
   /\ fst (fst (connectionRead conn timeout)) = r_ret (reader_run timeout conn)).
Proof.
  split; [|split]; intros Hrun.
  - destruct (reader_running_silent _ _ Hrun) as [Herr Hdone].
    unfold connectionRead, reader_select. cbn [fst].
    now rewrite Herr, Hdone.
  - destruct (writer_running_silent _ _ _ Hrun) as [Herr Hdone].
    unfold connectionWrite, writer_select. cbn [fst].
    now rewrite Herr, Hdone.
  - pose proof (reader_running_silent timeout conn) as Hsilent.
    unfold connectionRead, reader_select in *. cbn [fst snd] in *.
    destruct (r_errChannel (reader_run timeout conn)) as [err|]; [discriminate|].
    destruct (r_readDone (reader_run timeout conn)) as [done|]; [|discriminate].
    split; [|reflexivity].
    destruct (r_running (reader_run timeout conn)); [|reflexivity].
    destruct (Hsilent eq_refl) as [_ Hdone]. discriminate.
Qed.


(** C2, at a short write: the connection takes two of the three bytes,
    then one; the second call hands it [data] from the start again, so
    the wire carries [01 02 01] and the call reports success. *)
Theorem connectionWrite_short_write_resends_prefix :
  connectionWrite (MkConn [] [WAccept 2; WAccept 1] []) [x01; x02; x03] 2
  = (None, MkConn [] [] [x01; x02; x01]).
Proof. reflexivity. Qed.

(** C3, as stated, fails: two bytes arrive in two reads; the first read
    is short, so only the first byte is returned. *)
Lemma connectionRead_stops_at_first_fragment :
  connectionRead (MkConn [RBytes [x01]; RBytes [x02]] [] []) 5
  = (([x01], None), MkConn [RBytes [x02]] [] []).
Proof. reflexivity. Qed.

End ConnectionFacts.

(** * Properties of the relay *)

Section RelayFacts.
Import Connection Socks.

Variable p : Proxy.

Local Abbreviation live_inv := (Socks.live_inv p).
Local Abbreviation started_inv := (Socks.started_inv p).

Ltac relay_cases st a :=
  destruct st as [sh t1 t2 c1 c2 n evs']; destruct a, t1, t2, sh;
  cbn in *; intuition (try congruence; try lia).

Lemma relay_inv_step (st : Relay) (a : Action) :
  relay_inv st -> relay_inv (relay_step p st a).
Proof. unfold relay_inv. relay_cases st a. Qed.

Lemma live_inv_step (st : Relay) (a : Action) :
  a <> Shutdown -> live_inv st -> live_inv (relay_step p st a).
Proof. unfold Socks.live_inv. relay_cases st a. Qed.

Lemma down_inv_step (evs : list Event) (st : Relay) (a : Action) :
  down_inv evs st -> down_inv evs (relay_step p st a).
Proof. unfold down_inv. relay_cases st a. Qed.

Lemma started_inv_step (evs : list Event) (st : Relay) (a : Action) :
  started_inv evs st -> started_inv evs (relay_step p st a).
Proof. unfold Socks.started_inv. relay_cases st a. Qed.

Lemma relay_run_invariant (I : Relay -> Prop) (ok : Action -> Prop) :
  (forall st a, ok a -> I st -> I (relay_step p st a)) ->
  forall sched st, Forall ok sched -> I st -> I (relay_run p sched st).
Proof.
  intros Hstep sched. unfold relay_run.
  induction sched as [|a sched IH]; intros st Hok HI; [exact HI|].
  inversion Hok; subst. cbn. apply IH; auto.
Qed.

Lemma relay_run_app (sched1 sched2 : list Action) (st : Relay) :
  relay_run p (sched1 ++ sched2) st = relay_run p sched2 (relay_run p sched1 st).
Proof. unfold relay_run. apply fold_left_app. Qed.

(** Under a fair scheduler both goroutines return. *)
Lemma fair_returns (st : Relay) :
  task1 (relay_run p fair st) = Returned
  /\ task2 (relay_run p fair st) = Returned.
Proof.
  destruct st as [sh t1 t2 c1 c2 n evs']; destruct t1, t2, sh; cbn; auto.
Qed.

Lemma fair_not_shutdown : Forall (fun a => a <> Shutdown) fair.
Proof. repeat constructor; discriminate. Qed.

Lemma relay_init_inv (s : Session) : relay_inv (relay_init p s).
Proof. unfold relay_inv. cbn. intuition congruence. Qed.

(** [wg.Wait()] returns, and both channels then hold a report. *)
Lemma relay_reports (sched : list Action) (s : Session) :
  let st := relay_run p (sched ++ fair) (relay_init p s) in
  wg st = 0
  /\ exists o1 o2, errChannel1 st = Some o1 /\ errChannel2 st = Some o2.
Proof.
  intros st.
  assert (Hinv : relay_inv st).
  { apply (relay_run_invariant relay_inv (fun _ => True)).
    - intros; now apply relay_inv_step.
    - apply Forall_forall; auto.
    - apply relay_init_inv. }
  destruct (fair_returns (relay_run p sched (relay_init p s))) as [H1 H2].
  rewrite <- relay_run_app in H1, H2. fold st in H1, H2.
  destruct Hinv as (Hwg & Hc1 & Hc2).
  rewrite H1, H2 in Hwg. split; [exact Hwg|].
  destruct (errChannel1 st) as [o1|]; [|now apply Hc1 in H1].
  destruct (errChannel2 st) as [o2|]; [|now apply Hc2 in H2].
  now exists o1, o2.
Qed.

Lemma collect_spec (st : Relay) (o1 o2 : option error) :
  errChannel1 st = Some o1 -> errChannel2 st = Some o2 ->
  collect st = spec_relay_result o1 o2.
Proof.
  intros H1 H2. unfold collect, receive, spec_relay_result.
  rewrite H1, H2. now destruct o1, o2.
Qed.

(** C1: once both directions have reported, an error from either makes
    the result a HostUnreachable error around it, and two nil reports
    make it nil; when [p.Done] stays open the reports, hence the result,
    are the same under every schedule. *)
Theorem relay_outcome (sched : list Action) (s : Session) :
  (exists o1 o2,
      errChannel1 (relay_run p (sched ++ fair) (relay_init p s)) = Some o1
      /\ errChannel2 (relay_run p (sched ++ fair) (relay_init p s)) = Some o2
      /\ wg (relay_run p (sched ++ fair) (relay_init p s)) = 0
      /\ fst (relay p sched s) = spec_relay_result o1 o2)
  /\ (Done p = false -> ~ In Shutdown sched ->
      fst (relay p sched s)
      = spec_relay_result (clientToRemote_report p) (remoteToClient_report p)).
Proof.
  split.
  - destruct (relay_reports sched s) as (Hwg & o1 & o2 & H1 & H2).
    exists o1, o2. repeat split; auto.
    unfold relay. cbn [fst]. now apply collect_spec.
  - intros Hdone Hsched.
    set (st := relay_run p (sched ++ fair) (relay_init p s)).
    assert (Hlive : live_inv st).
    { apply (relay_run_invariant live_inv (fun a => a <> Shutdown)).
      - intros; now apply live_inv_step.
      - apply Forall_app. split; [|apply fair_not_shutdown].
        apply Forall_forall. intros a Ha Heq. subst. contradiction.
      - unfold Socks.live_inv. cbn. intuition congruence. }
    destruct (fair_returns (relay_run p sched (relay_init p s))) as [H1 H2].
    rewrite <- relay_run_app in H1, H2. fold st in H1, H2.
    destruct Hlive as (_ & Hc1 & Hc2).
    unfold relay. cbn [fst]. fold st. apply collect_spec; auto.
Qed.

(** C8: with [p.Done] closed when the relay starts, each direction
    reports nil without calling its collaborator and the result is
    success; the gate is looked at when a direction starts and not
    again: closed after both have started, it changes nothing. *)
Theorem shutdown_gate (sched : list Action) (s : Session) :
  (Done p = true ->
   relay p sched s
   = (None, MkSession (client s) (trace s ++ [EvRefresh; EvCancel])))
  /\ (Done p = false ->
      relay p (StartClientToRemote :: StartRemoteToClient :: Shutdown :: sched) s
      = (spec_relay_result (clientToRemote_report p) (remoteToClient_report p),
         MkSession (client s)
           (trace s ++ [EvRefresh; EvCopyFromClientToRemote;
                        EvCopyFromRemoteToClient; EvCancel])))
  /\ (forall st, shutdown st = true -> task1 st = NotStarted ->
      copyClientToRemote_start p st
      = MkRelay true Returned (task2 st) (Some None) (errChannel2 st)
                (wg st - 1) (events st))
  /\ (forall st, shutdown st = true -> task2 st = NotStarted ->
      copyRemoteToClient_start p st
      = MkRelay true (task1 st) Returned (errChannel1 st) (Some None)
                (wg st - 1) (events st)).
Proof.
  split; [|split; [|split]].
  - intros Hdone.
    set (st := relay_run p (sched ++ fair) (relay_init p s)).
    assert (Hdown : down_inv (trace s ++ [EvRefresh]) st).
    { apply (relay_run_invariant (down_inv (trace s ++ [EvRefresh])) (fun _ => True)).
      - intros; now apply down_inv_step.
      - apply Forall_forall; auto.
      - unfold down_inv. cbn. intuition congruence. }
    destruct (fair_returns (relay_run p sched (relay_init p s))) as [H1 H2].
    rewrite <- relay_run_app in H1, H2. fold st in H1, H2.
    destruct Hdown as (_ & Hev & _ & _ & Hc1 & Hc2).
    unfold relay. fold st.
    rewrite (collect_spec st None None) by auto.
    rewrite Hev, <- app_assoc. reflexivity.
  - intros Hdone.
    set (evs := trace s ++ [EvRefresh; EvCopyFromClientToRemote; EvCopyFromRemoteToClient]).
    set (st0 := relay_run p [StartClientToRemote; StartRemoteToClient; Shutdown] (relay_init p s)).
    set (st := relay_run p (sched ++ fair) st0).
    assert (Hst0 : started_inv evs st0).
    { unfold Socks.started_inv, st0, evs. cbn. rewrite Hdone. cbn.
      rewrite <- !app_assoc. cbn. intuition congruence. }
    assert (Hst : started_inv evs st).
    { apply (relay_run_invariant (started_inv evs) (fun _ => True)); auto.
      - intros; now apply started_inv_step.
      - apply Forall_forall; auto. }
    destruct (fair_returns (relay_run p sched st0)) as [H1 H2].
    rewrite <- relay_run_app in H1, H2. fold st in H1, H2.
    destruct Hst as (Hev & _ & _ & Hc1 & Hc2).
    unfold relay.
    change (relay_run p ((StartClientToRemote :: StartRemoteToClient :: Shutdown :: sched) ++ fair)
              (relay_init p s)) with st.
    rewrite (collect_spec st (clientToRemote_report p) (remoteToClient_report p)) by auto.
    rewrite Hev. unfold evs. rewrite <- app_assoc. reflexivity.
  - intros st Hsh Ht. unfold copyClientToRemote_start. now rewrite Ht, Hsh.
  - intros st Hsh Ht. unfold copyRemoteToClient_start. now rewrite Ht, Hsh.
Qed.

End RelayFacts.

(** * Properties of the handshake and of the session *)

Section SessionFacts.
Import Connection Socks.

Variable cd : Codec.
Variable p : Proxy.

Lemma methodSupported_In (methods : list byte) :
  methodSupported methods = true <-> In MethodNoAuthRequired methods.
Proof.
  induction methods as [|x rest IH]; cbn [methodSupported In].
  - split; [discriminate|contradiction].
  - destruct (Byte.eqb x MethodNoAuthRequired) eqn:Heq.
    + apply Byte.byte_dec_bl in Heq. split; auto.
    + apply Byte.eqb_false in Heq. rewrite IH. split; [auto|].
      intros [H|H]; [contradiction|exact H].
Qed.

Lemma clientRead_trace (s : Session) :
  trace (snd (clientRead p s)) = trace s ++ [EvRead].
Proof.
  unfold clientRead. now destruct (connectionRead (client s) (Timeout p)).
Qed.

Lemma clientWrite_trace (data : list byte) (s : Session) :
  trace (snd (clientWrite p data s)) = trace s ++ [EvWrite data].
Proof.
  unfold clientWrite. now destruct (connectionWrite (client s) data (Timeout p)).
Qed.

(** C6: a version 5 greeting that offers the no-authentication method is
    answered by one write of the bytes 5, 0, and the handshake succeeds
    unless that write fails (GeneralFailure); one that does not offer it
    fails with MethodNotSupported, and [socks] returns without a second
    read. *)
Theorem handleConnect_method_selection
    (sched : list Action) (s s1 : Session) (buf : list byte) (header : Header) :
  clientRead p s = ((buf, None), s1) ->
  parseHeader cd buf = inl header ->
  Version header = Version5 ->
  (In MethodNoAuthRequired (Methods header) ->
   trace (snd (handleConnect cd p s)) = trace s ++ [EvRead; EvWrite [x05; x00]]
   /\ handleConnect cd p s
      = (match fst (clientWrite p [x05; x00] s1) with
         | None => None
         | Some err =>
             Some (MkError RequestReplyGeneralFailure
                     (Errorf_w "could not send connect reply: " err))
         end,
         snd (clientWrite p [x05; x00] s1)))
  /\ (~ In MethodNoAuthRequired (Methods header) ->
      handleConnect cd p s
      = (Some (MkError RequestReplyMethodNotSupported
                 (Errorf "we currently only support no authentication")), s1)
      /\ socks cd p sched s
         = (Some (MkError RequestReplyMethodNotSupported
                    (Errorf "we currently only support no authentication")),
            MkSession (client s1) (trace s ++ [EvRead; EvCleanup]))).
Proof.
  intros Hread Hparse Hver.
  assert (Htrace : trace s1 = trace s ++ [EvRead]).
  { rewrite <- clientRead_trace, Hread. reflexivity. }
  assert (Hhc : handleConnect cd p s
                = if negb (methodSupported (Methods header))
                  then (Some (MkError RequestReplyMethodNotSupported
                                (Errorf "we currently only support no authentication")), s1)
                  else match clientWrite p [Version5; MethodNoAuthRequired] s1 with
                       | (Some err, s2) =>
                           (Some (MkError RequestReplyGeneralFailure
                                    (Errorf_w "could not send connect reply: " err)), s2)
                       | (None, s2) => (None, s2)
                       end).
  { unfold handleConnect. rewrite Hread, Hparse, Hver. reflexivity. }
  split; intros Hin.
  - apply methodSupported_In in Hin. rewrite Hhc, Hin. cbn [negb].
    change [Version5; MethodNoAuthRequired] with [x05; x00].
    pose proof (clientWrite_trace [x05; x00] s1) as Hw.
    destruct (clientWrite p [x05; x00] s1) as [[err|] s2]; cbn [fst snd] in *;
      rewrite Hw, Htrace, <- app_assoc; auto.
  - assert (Hno : methodSupported (Methods header) = false).
    { destruct (methodSupported (Methods header)) eqn:Hm; [|reflexivity].
      apply methodSupported_In in Hm. contradiction. }
    rewrite Hhc, Hno. cbn [negb]. split; [reflexivity|].
    unfold socks. rewrite Hhc, Hno. cbn [negb]. unfold log.
    rewrite Htrace, <- app_assoc. reflexivity.
Qed.

(** C7: a parsed greeting whose version is not 5 fails with
    CommandNotSupported and a cause that names the version, whatever
    methods it offers and before anything is written; only version 5
    gets past the check. *)
Theorem handleConnect_version_check
    (s s1 : Session) (buf : list byte) (header : Header) :
  clientRead p s = ((buf, None), s1) ->
  parseHeader cd buf = inl header ->
  (Version header = Version4 ->
   handleConnect cd p s
   = (Some (MkError RequestReplyCommandNotSupported
              (Errorf "socks4 not yet implemented")), s1))
  /\ (Version header <> Version4 -> Version header <> Version5 ->
      handleConnect cd p s
      = (Some (MkError RequestReplyCommandNotSupported
                 (Errorf ("version " ++ fmt_sharp_x (Version header)
                          ++ " not yet implemented")%string)), s1))
  /\ trace s1 = trace s ++ [EvRead]
  /\ (forall r s2, handleConnect cd p s = (r, s2) ->
      (forall err, r = Some err -> Reason err <> RequestReplyCommandNotSupported) ->
      Version header = Version5).
Proof.
  intros Hread Hparse.
  assert (Htrace : trace s1 = trace s ++ [EvRead]).
  { rewrite <- clientRead_trace, Hread. reflexivity. }
  repeat split; auto.
  - intros Hv. unfold handleConnect. rewrite Hread, Hparse, Hv. reflexivity.
  - intros H4 H5. unfold handleConnect. rewrite Hread, Hparse.
    destruct (Byte.eqb (Version header) Version4) eqn:E4;
      [apply Byte.byte_dec_bl in E4; contradiction|].
    destruct (Byte.eqb (Version header) Version5) eqn:E5;
      [apply Byte.byte_dec_bl in E5; contradiction|].
    reflexivity.
  - intros r s2 Hhc Hreason. unfold handleConnect in Hhc.
    rewrite Hread, Hparse in Hhc.
    destruct (Byte.eqb (Version header) Version4) eqn:E4.
    { inversion Hhc; subst. exfalso. now eapply Hreason. }
    destruct (Byte.eqb (Version header) Version5) eqn:E5.
    { now apply Byte.byte_dec_bl in E5. }
    inversion Hhc; subst. exfalso. now eapply Hreason.
Qed.

(** C9: a failed read, a timeout included, is a ConnectionRefused error
    in the greeting phase and a GeneralFailure error in the request
    phase. *)
Theorem read_failure_reason (s : Session) :
  (forall data err s1,
      clientRead p s = ((data, Some err), s1) ->
      handleConnect cd p s
      = (Some (MkError RequestReplyConnectionRefused err), s1)
      /\ handleRequest cd p s
         = (inr (MkError RequestReplyGeneralFailure
                   (Errorf_w "error on ConnectionRead: " err)), s1))
  /\ (r_running (reader_run (Timeout p) (client s)) = true ->
      fst (handleConnect cd p s)
      = Some (MkError RequestReplyConnectionRefused read_timeout_error)
      /\ fst (handleRequest cd p s)
         = inr (MkError RequestReplyGeneralFailure
                  (Errorf_w "error on ConnectionRead: " read_timeout_error))).
Proof.
  split.
  - intros data err s1 Hread. unfold handleConnect, handleRequest.
    now rewrite Hread.
  - intros Hrun.
    destruct (reader_running_silent _ _ Hrun) as [Herr Hdone].
    unfold handleConnect, handleRequest, clientRead, connectionRead, reader_select.
    now rewrite Herr, Hdone.
Qed.

(** C5 (as amended): [handle] attempts an error reply exactly when
    [socks] returns an error, at most one, built from the reason of that
    error; a failed relay is such an error, with reason
    HostUnreachable. *)
Theorem handle_error_reply (sched : list Action) (conn : Conn) :
  trace (handle cd p sched conn)
  = trace (snd (socks cd p sched (MkSession conn [])))
    ++ match fst (socks cd p sched (MkSession conn [])) with
       | None => []
       | Some err =>
           match requestReply cd None (Reason err) with
           | inl repl => [EvWrite repl]
           | inr _ => []
           end
       end
    ++ [EvCloseClient]
  /\ (forall s3,
         fst (relay p sched s3) = None
         \/ exists cause,
             fst (relay p sched s3)
             = Some (MkError RequestReplyHostUnreachable cause)).
Proof.
  split.
  - unfold handle.
    destruct (socks cd p sched (MkSession conn [])) as [[err|] s1]; cbn [fst snd].
    + unfold socksErrorReply.
      destruct (requestReply cd None (Reason err)) as [repl|e]; cbn [snd log trace].
      * pose proof (clientWrite_trace repl s1) as Hw.
        destruct (clientWrite p repl s1) as [[e'|] s2]; cbn [fst snd] in *;
          rewrite Hw, <- app_assoc; reflexivity.
      * reflexivity.
    + reflexivity.
  - intros s3. unfold relay, collect. cbn [fst].
    destruct (receive _) as [e1|]; [right; now exists e1|].
    destruct (receive _) as [e2|]; [right; now exists e2|now left].
Qed.

End SessionFacts.

(** * The theorems at concrete sessions *)

Section Instances.
Import Connection Socks SpecCodec Scenario.

(** A full chunk, then one byte, then a later byte: the first two
    reads are returned, the later byte stays unread. *)
Lemma connectionRead_frame_witness :
  connectionRead
    (MkConn (map RBytes [full_chunk] ++ RBytes [x01] :: [RBytes [x02]]) [] []) 2
  = ((List.concat [full_chunk] ++ [x01], None), MkConn [RBytes [x02]] [] []).
Proof.
  apply connectionRead_frame.
  - repeat constructor.
  - apply Nat.ltb_lt. reflexivity.
  - apply Nat.ltb_lt. reflexivity.
Defined.

(** A full chunk, then end of file: 1024 bytes were read, none is
    returned. *)
Lemma connectionRead_error_discards_witness :
  connectionRead (MkConn (map RBytes [full_chunk] ++ RErr EOF :: []) [] []) 2
  = (([], Some EOF), MkConn [] [] []).
Proof.
  apply connectionRead_error_discards.
  - repeat constructor.
  - apply Nat.ltb_lt. reflexivity.
Defined.

(** A full chunk arrives and then nothing; nothing can be written. At
    the deadline the reader holds 1024 bytes and is still running: both
    calls time out, and the read returns nil. *)
Lemma timeout_before_terminal_event_witness :
  r_running (reader_run 3 (MkConn [RBytes full_chunk] [] [])) = true
  /\ List.length (r_ret (reader_run 3 (MkConn [RBytes full_chunk] [] []))) = 1024
  /\ fst (connectionRead (MkConn [RBytes full_chunk] [] []) 3)
     = ([], Some read_timeout_error)
  /\ w_running (writer_run 3 (MkConn [RBytes full_chunk] [] []) [x01]) = true
  /\ fst (connectionWrite (MkConn [RBytes full_chunk] [] []) [x01] 3)
     = Some write_timeout_error.
Proof.
  destruct (timeout_before_terminal_event (MkConn [RBytes full_chunk] [] []) [x01] 3)
    as (Hread & Hwrite & _).
  split; [vm_compute; reflexivity|].
  split; [vm_compute; reflexivity|].
  split; [apply Hread; vm_compute; reflexivity|].
  split; [vm_compute; reflexivity|].
  apply Hwrite. vm_compute. reflexivity.
Defined.

(** The remote-to-client copy finishes first and succeeds, the
    client-to-remote copy fails: HostUnreachable around its report. *)
Lemma relay_outcome_witness :
  Done (proxy false (Some reset) None) = false
  /\ fst (relay (proxy false (Some reset) None)
            [StartRemoteToClient; ReturnRemoteToClient; StartClientToRemote]
            (MkSession (client_sending []) []))
     = Some (MkError RequestReplyHostUnreachable
               (Errorf_v "error on copy from Client to Remote: " reset)).
Proof.
  split; [reflexivity|].
  apply (proj2 (relay_outcome (proxy false (Some reset) None)
                  [StartRemoteToClient; ReturnRemoteToClient; StartClientToRemote]
                  (MkSession (client_sending []) []))).
  - reflexivity.
  - cbn. intros H. repeat (destruct H as [H|H]; [discriminate H|]). exact H.
Defined.

(** [p.Done] is closed before the relay: collaborators that would fail
    are never called, and the result is success. *)
Lemma shutdown_gate_witness :
  Done (proxy true (Some reset) (Some reset)) = true
  /\ relay (proxy true (Some reset) (Some reset))
        [StartRemoteToClient; StartClientToRemote]
        (MkSession (client_sending []) [])
     = (None, MkSession (client_sending []) [EvRefresh; EvCancel]).
Proof.
  split; [reflexivity|].
  apply (proj1 (shutdown_gate (proxy true (Some reset) (Some reset))
                  [StartRemoteToClient; StartClientToRemote]
                  (MkSession (client_sending []) []))).
  reflexivity.
Defined.

(** The greeting [05 01 00]: one write of [05 00], and success. *)
Lemma handleConnect_method_selection_witness :
  clientRead (proxy false None None) (MkSession (client_sending [greeting]) [])
  = ((greeting, None),
     MkSession (MkConn [] [WAccept 1024; WAccept 1024; WAccept 1024] []) [EvRead])
  /\ parseHeader codec greeting = inl (MkHeader x05 [x00])
  /\ handleConnect codec (proxy false None None)
       (MkSession (client_sending [greeting]) [])
     = (None,
        MkSession (MkConn [] [WAccept 1024; WAccept 1024] [x05; x00])
                  [EvRead; EvWrite [x05; x00]]).
Proof.
  split; [reflexivity|]. split; [reflexivity|].
  destruct (handleConnect_method_selection codec (proxy false None None) []
              (MkSession (client_sending [greeting]) [])
              (MkSession (MkConn [] [WAccept 1024; WAccept 1024; WAccept 1024] []) [EvRead])
              greeting (MkHeader x05 [x00]) eq_refl eq_refl eq_refl)
    as [Hyes _].
  destruct (Hyes (or_introl eq_refl)) as [_ Hresult].
  rewrite Hresult. reflexivity.
Defined.

(** The greeting [04 01 00] offers the no-authentication method and is
    refused for its version. *)
Lemma handleConnect_version_check_witness :
  clientRead (proxy false None None) (MkSession (client_sending [[x04; x01; x00]]) [])
  = (([x04; x01; x00], None),
     MkSession (MkConn [] [WAccept 1024; WAccept 1024; WAccept 1024] []) [EvRead])
  /\ parseHeader codec [x04; x01; x00] = inl (MkHeader x04 [x00])
  /\ handleConnect codec (proxy false None None)
       (MkSession (client_sending [[x04; x01; x00]]) [])
     = (Some (MkError RequestReplyCommandNotSupported
                (Errorf "socks4 not yet implemented")),
        MkSession (MkConn [] [WAccept 1024; WAccept 1024; WAccept 1024] []) [EvRead]).
Proof.
  split; [reflexivity|]. split; [reflexivity|].
  apply (proj1 (handleConnect_version_check codec (proxy false None None)
                  (MkSession (client_sending [[x04; x01; x00]]) [])
                  (MkSession (MkConn [] [WAccept 1024; WAccept 1024; WAccept 1024] []) [EvRead])
                  [x04; x01; x00] (MkHeader x04 [x00]) eq_refl eq_refl)).
  reflexivity.
Defined.

(** A client that sends nothing: the read times out, ConnectionRefused
    in the greeting phase and GeneralFailure in the request phase. *)
Lemma read_failure_reason_witness :
  r_running (reader_run (Timeout (proxy false None None)) (client_sending [])) = true
  /\ fst (handleConnect codec (proxy false None None) (MkSession (client_sending []) []))
     = Some (MkError RequestReplyConnectionRefused read_timeout_error)
  /\ fst (handleRequest codec (proxy false None None) (MkSession (client_sending []) []))
     = inr (MkError RequestReplyGeneralFailure
              (Errorf_w "error on ConnectionRead: " read_timeout_error)).
Proof.
  split; [reflexivity|].
  apply (proj2 (read_failure_reason codec (proxy false None None)
                  (MkSession (client_sending []) []))).
  reflexivity.
Defined.

(** C5, as stated, fails: the handshake of the end-to-end scenario
    succeeds, the success reply is written and the relay runs; the
    client-to-remote copy then fails, and [handle] writes a second reply
    frame, with reason HostUnreachable, after the relay. *)
Lemma handle_replies_after_relay_failure :
  trace (handle codec (proxy false (Some reset) None) []
           (client_sending [greeting; connect_request]))
  = [EvRead; EvWrite [x05; x00]; EvRead; EvPreHandler;
     EvWrite [x05; x00; x00; x01; x00; x00; x00; x00; x00; x00];
     EvRefresh; EvCopyFromClientToRemote; EvCopyFromRemoteToClient; EvCancel;
     EvCloseRemote; EvCleanup;
     EvWrite [x05; x04; x00; x01; x00; x00; x00; x00; x00; x00];
     EvCloseClient]
  /\ wire (client (handle codec (proxy false (Some reset) None) []
                     (client_sending [greeting; connect_request])))
     = [x05; x00]
       ++ [x05; x00; x00; x01; x00; x00; x00; x00; x00; x00]
       ++ [x05; x04; x00; x01; x00; x00; x00; x00; x00; x00].
Proof. split; vm_compute; reflexivity. Qed.

End Instances.

(** * Further properties of connection.go *)

Section ConnectionMore.
Import Connection Observe.

Lemma Read_stream (conn conn' : Conn) (n : nat) (r : list byte + error) :
  Read conn n = Some (r, conn') ->
  stream (inbound conn)
  = match r with inl bs => bs | inr _ => [] end ++ stream (inbound conn')
  /\ outbound conn' = outbound conn /\ wire conn' = wire conn.
Proof.
  unfold Read. destruct (inbound conn) as [|[bs|err] rest]; [discriminate| |].
  - destruct (List.length bs <=? n); intros H; inversion H; subst; cbn;
      repeat split; auto.
    now rewrite app_assoc, firstn_skipn.
  - intros H; inversion H; subst; cbn. auto.
Qed.

(** Whatever the reader has done, the bytes it holds followed by those
    still to come are the bytes of the connection at the start. *)
Lemma reader_run_stream (timeout : nat) (conn : Conn) :
  stream (inbound conn)
  = r_ret (reader_run timeout conn)
    ++ stream (inbound (r_conn (reader_run timeout conn)))
  /\ outbound (r_conn (reader_run timeout conn)) = outbound conn
  /\ wire (r_conn (reader_run timeout conn)) = wire conn.
Proof.
  unfold reader_run. induction timeout as [|n IH]; [now cbn|].
  rewrite Nat.iter_succ.
  set (st := Nat.iter n reader_step (reader_init conn)) in *.
  destruct IH as (Hs & Ho & Hw).
  unfold reader_step. destruct (r_running st); [|auto].
  destruct (Read (r_conn st) bufLen) as [[r conn']|] eqn:Hread; [|auto].
  apply Read_stream in Hread. destruct Hread as (Hs' & Ho' & Hw').
  destruct r as [chunk|err].
  - destruct (List.length chunk <? bufLen); cbn;
      rewrite Hs, Hs', Ho', Hw', app_assoc; auto.
  - cbn. rewrite Hs, Hs', Ho', Hw'. auto.
Qed.

(** X1: what a successful [connectionRead] returns is a prefix of the
    byte stream of the connection, and the rest of the stream is still
    to come: no byte is lost, repeated or reordered, and nothing is
    written. *)
Theorem connectionRead_returns_prefix
    (conn conn' : Conn) (timeout : nat) (data : list byte) :
  connectionRead conn timeout = ((data, None), conn') ->
  stream (inbound conn) = data ++ stream (inbound conn')
  /\ outbound conn' = outbound conn
  /\ wire conn' = wire conn.
Proof.
  unfold connectionRead, reader_select. intros H.
  pose proof (reader_run_stream timeout conn) as Hinv.
  destruct (r_errChannel (reader_run timeout conn)); [discriminate|].
  destruct (r_readDone (reader_run timeout conn)); [|discriminate].
  inversion H; subst. exact Hinv.
Qed.

(** A reader that only ever meets full chunks is still running at
    every deadline. *)
Lemma reader_full_chunks_running (out : list WriteEvent) (w : list byte)
    (full : list (list byte)) :
  Forall (fun chunk => List.length chunk = bufLen) full ->
  forall timeout ret,
    r_running (Nat.iter timeout reader_step
                 (MkReader (MkConn (map RBytes full) out w) ret None None true))
    = true.
Proof.
  induction 1 as [|chunk full Hlen _ IH]; intros timeout ret.
  - induction timeout as [|n IHn]; [reflexivity|].
    rewrite Nat.iter_succ_r. exact IHn.
  - destruct timeout as [|n]; [reflexivity|].
    rewrite Nat.iter_succ_r. cbn [map].
    rewrite reader_step_full by exact Hlen. apply IH.
Qed.

(** X2: a connection that delivers only full 1024-byte chunks and then
    stays silent makes [connectionRead] time out, however long the
    timeout: the read waits for a short chunk that never comes. *)
Theorem connectionRead_full_chunks_time_out
    (full : list (list byte)) (out : list WriteEvent) (w : list byte)
    (timeout : nat) :
  Forall (fun chunk => List.length chunk = bufLen) full ->
  fst (connectionRead (MkConn (map RBytes full) out w) timeout)
  = ([], Some read_timeout_error).
Proof.
  intros Hfull.
  assert (Hrun : r_running (reader_run timeout (MkConn (map RBytes full) out w)) = true).
  { unfold reader_run, reader_init. now apply reader_full_chunks_running. }
  destruct (reader_running_silent _ _ Hrun) as [Herr Hdone].
  unfold connectionRead, reader_select. cbn [fst].
  now rewrite Herr, Hdone.
Qed.


Lemma Write_wire (conn conn' : Conn) (p : list byte) (r : nat + error) :
  Write conn p = Some (r, conn') ->
  inbound conn' = inbound conn
  /\ List.length (wire conn')
     = List.length (wire conn) + match r with inl written => written | inr _ => 0 end.
Proof.
  unfold Write. destruct (outbound conn) as [|[n|err] rest]; [discriminate| |];
    intros H; inversion H; subst; cbn; split; auto.
  rewrite length_app, length_firstn. lia.
Qed.

Lemma writer_run_inv (conn : Conn) (data : list byte) (timeout : nat) :
  writer_inv conn data (writer_run timeout conn data).
Proof.
  unfold writer_run. induction timeout as [|n IH].
  - unfold writer_inv. cbn. split; [reflexivity|lia].
  - rewrite Nat.iter_succ.
    set (st := Nat.iter n (writer_step data) (writer_init conn data)) in *.
    unfold writer_step. destruct (w_running st) eqn:Hrun; [|exact IH].
    destruct (Write (w_conn st) data) as [[r conn']|] eqn:Hw; [|exact IH].
    apply Write_wire in Hw. destruct Hw as [Hin Hlen].
    destruct IH as [Hin0 Hcount].
    destruct (w_writeDone st) eqn:Hdone; [destruct Hcount; congruence|].
    destruct r as [written|err]; unfold writer_inv.
    + destruct (Z.of_nat written =? w_toWriteLeft st)%Z eqn:Heq; cbn;
        rewrite ?Hdone; (split; [congruence|]).
      * apply Z.eqb_eq in Heq. split; [reflexivity|lia].
      * lia.
    + cbn. rewrite ?Hdone. split; [congruence|lia].
Qed.

(** X4: when [connectionWrite] reports success, the connection has
    taken exactly as many bytes as [data] holds (each [Write] took a
    prefix of [data]), and nothing was read. *)
Theorem connectionWrite_success_length
    (conn : Conn) (data : list byte) (timeout : nat) :
  fst (connectionWrite conn data timeout) = None ->
  List.length (wire (snd (connectionWrite conn data timeout)))
  = List.length (wire conn) + List.length data
  /\ inbound (snd (connectionWrite conn data timeout)) = inbound conn.
Proof.
  unfold connectionWrite, writer_select. cbn [fst snd]. intros H.
  destruct (writer_run_inv conn data timeout) as [Hin Hcount].
  destruct (w_errChannel (writer_run timeout conn data)); [discriminate|].
  destruct (w_writeDone (writer_run timeout conn data)); [|discriminate].
  destruct Hcount as [_ Hlen]. auto.
Qed.

(** After a short first write, writes that take the whole buffer never
    match the counter. *)
Lemma writer_overfill (data : list byte) (n : nat) (inb : list ReadEvent) (j : nat) :
  List.length data <= n ->
  forall (m : nat) (w : list byte) (left : Z),
    j <= m ->
    (left < Z.of_nat (List.length data))%Z ->
    Nat.iter j (writer_step data)
      (MkWriter (MkConn inb (repeat (WAccept n) m) w) left None None true)
    = MkWriter (MkConn inb (repeat (WAccept n) (m - j))
                  (w ++ List.concat (repeat data j)))
               (left - Z.of_nat (j * List.length data))%Z None None true.
Proof.
  intros Hn. induction j as [|j IH]; intros m w left Hj Hleft.
  - cbn. rewrite app_nil_r, Nat.sub_0_r, Z.sub_0_r. reflexivity.
  - destruct m as [|m]; [lia|].
    rewrite Nat.iter_succ_r.
    assert (Hstep : writer_step data
                      (MkWriter (MkConn inb (repeat (WAccept n) (S m)) w) left None None true)
                    = MkWriter (MkConn inb (repeat (WAccept n) m) (w ++ data))
                               (left - Z.of_nat (List.length data))%Z None None true).
    { unfold writer_step, Write.
      cbn [w_running w_conn inbound outbound wire w_toWriteLeft w_errChannel
           w_writeDone repeat].
      rewrite Nat.min_r by exact Hn. rewrite firstn_all.
      assert (Hne : (Z.of_nat (List.length data) =? left)%Z = false)
        by (apply Z.eqb_neq; lia).
      now rewrite Hne. }
    rewrite Hstep, IH by lia.
    cbn [repeat List.concat]. rewrite <- app_assoc.
    replace (S m - S j) with (m - j) by lia.
    f_equal. lia.
Qed.

(** X5: if the first [Write] is short and the following ones take the
    whole buffer, [connectionWrite] never succeeds: it sends [data]
    again in full at every retry until the deadline, and times out. *)
Theorem connectionWrite_short_then_whole_times_out
    (data : list byte) (k n m timeout : nat)
    (inb : list ReadEvent) (w : list byte) :
  0 < k < List.length data ->
  List.length data <= n ->
  0 < timeout <= S m ->
  connectionWrite (MkConn inb (WAccept k :: repeat (WAccept n) m) w) data timeout
  = (Some write_timeout_error,
     MkConn inb (repeat (WAccept n) (S m - timeout))
       (w ++ firstn k data ++ List.concat (repeat data (timeout - 1)))).
Proof.
  intros Hk Hn Htime.
  assert (Hfirst : writer_step data
                     (writer_init (MkConn inb (WAccept k :: repeat (WAccept n) m) w) data)
                   = MkWriter (MkConn inb (repeat (WAccept n) m) (w ++ firstn k data))
                              (Z.of_nat (List.length data) - Z.of_nat k)%Z
                              None None true).
  { unfold writer_step, writer_init, Write.
    cbn [w_running w_conn inbound outbound wire w_toWriteLeft w_errChannel w_writeDone].
    rewrite Nat.min_l by lia.
    assert (Hne : (Z.of_nat k =? Z.of_nat (List.length data))%Z = false)
      by (apply Z.eqb_neq; lia).
    now rewrite Hne. }
  destruct timeout as [|j]; [lia|].
  unfold connectionWrite, writer_run. cbv zeta.
  rewrite !Nat.iter_succ_r, Hfirst.
  rewrite (writer_overfill data n inb j Hn m) by lia.
  cbn [writer_select w_errChannel w_writeDone w_conn].
  replace (S j - 1) with j by lia.
  replace (S m - S j) with (m - j) by lia.
  now rewrite <- app_assoc.
Qed.

End ConnectionMore.

(** * Further properties of the relay *)

Section RelayMore.
Import Connection Socks Observe.

Variable p : Proxy.

Lemma count_app (f : Event -> bool) (evs evs' : list Event) :
  count f (evs ++ evs') = count f evs + count f evs'.
Proof. unfold count. now rewrite filter_app, length_app. Qed.

Ltac relay_step_cases st a :=
  destruct st as [sh t1 t2 c1 c2 n evs']; destruct a, t1, t2, sh;
  cbn in *; intuition (try congruence; try lia).

Lemma shut_after_first_inv_step (evs : list Event) (st : Relay) (a : Action) :
  shut_after_first_inv p evs st -> shut_after_first_inv p evs (relay_step p st a).
Proof. unfold shut_after_first_inv. relay_step_cases st a. Qed.

Lemma shut_after_second_inv_step (evs : list Event) (st : Relay) (a : Action) :
  shut_after_second_inv p evs st -> shut_after_second_inv p evs (relay_step p st a).
Proof. unfold shut_after_second_inv. relay_step_cases st a. Qed.

Lemma calls_inv_step (base : list Event) (st : Relay) (a : Action) :
  calls_inv base st -> calls_inv base (relay_step p st a).
Proof.
  intros (more & Hev & Hcopy & H1 & H2).
  destruct st as [sh t1 t2 c1 c2 n evs']; cbn in Hev, H1, H2; subst evs'.
  destruct a, t1, t2, sh; cbn;
    first
      [ exists more; cbn; repeat split; solve [auto | lia]
      | exists (more ++ [EvCopyFromClientToRemote]); cbn;
        rewrite forallb_app, !count_app, Hcopy, app_assoc; cbn in *;
        repeat split; solve [auto | lia]
      | exists (more ++ [EvCopyFromRemoteToClient]); cbn;
        rewrite forallb_app, !count_app, Hcopy, app_assoc; cbn in *;
        repeat split; solve [auto | lia] ].
Qed.


(** X7: when [p.Done] is closed after one direction has called its
    collaborator and before the other starts, the first direction
    reports what its collaborator did, the other reports nil and its
    collaborator is never called. *)
Theorem relay_shutdown_between_starts (sched : list Action) (s : Session) :
  Done p = false ->
  relay p (StartClientToRemote :: Shutdown :: sched) s
  = (spec_relay_result (clientToRemote_report p) None,
     MkSession (client s)
       (trace s ++ [EvRefresh; EvCopyFromClientToRemote; EvCancel]))
  /\ relay p (StartRemoteToClient :: Shutdown :: sched) s
     = (spec_relay_result None (remoteToClient_report p),
        MkSession (client s)
          (trace s ++ [EvRefresh; EvCopyFromRemoteToClient; EvCancel])).
Proof.
  intros Hdone. split.
  - set (evs := trace s ++ [EvRefresh; EvCopyFromClientToRemote]).
    set (st0 := relay_run p [StartClientToRemote; Shutdown] (relay_init p s)).
    set (st := relay_run p (sched ++ fair) st0).
    assert (Hst0 : shut_after_first_inv p evs st0).
    { unfold shut_after_first_inv, st0, evs. cbn. rewrite Hdone. cbn.
      rewrite <- !app_assoc. cbn. intuition congruence. }
    assert (Hst : shut_after_first_inv p evs st).
    { apply (relay_run_invariant p (shut_after_first_inv p evs) (fun _ => True)); auto.
      - intros; now apply shut_after_first_inv_step.
      - apply Forall_forall; auto. }
    destruct (fair_returns p (relay_run p sched st0)) as [H1 H2].
    rewrite <- relay_run_app in H1, H2. fold st in H1, H2.
    destruct Hst as (_ & Hev & _ & _ & Hc1 & Hc2).
    unfold relay.
    change (relay_run p ((StartClientToRemote :: Shutdown :: sched) ++ fair)
              (relay_init p s)) with st.
    rewrite (collect_spec st (clientToRemote_report p) None) by auto.
    rewrite Hev. unfold evs. rewrite <- app_assoc. reflexivity.
  - set (evs := trace s ++ [EvRefresh; EvCopyFromRemoteToClient]).
    set (st0 := relay_run p [StartRemoteToClient; Shutdown] (relay_init p s)).
    set (st := relay_run p (sched ++ fair) st0).
    assert (Hst0 : shut_after_second_inv p evs st0).
    { unfold shut_after_second_inv, st0, evs. cbn. rewrite Hdone. cbn.
      rewrite <- !app_assoc. cbn. intuition congruence. }
    assert (Hst : shut_after_second_inv p evs st).
    { apply (relay_run_invariant p (shut_after_second_inv p evs) (fun _ => True)); auto.
      - intros; now apply shut_after_second_inv_step.
      - apply Forall_forall; auto. }
    destruct (fair_returns p (relay_run p sched st0)) as [H1 H2].
    rewrite <- relay_run_app in H1, H2. fold st in H1, H2.
    destruct Hst as (_ & Hev & _ & _ & Hc1 & Hc2).
    unfold relay.
    change (relay_run p ((StartRemoteToClient :: Shutdown :: sched) ++ fair)
              (relay_init p s)) with st.
    rewrite (collect_spec st None (remoteToClient_report p)) by auto.
    rewrite Hev. unfold evs. rewrite <- app_assoc. reflexivity.
Qed.

(** X8: when [p.Done] stays open and the client-to-remote copy fails,
    the session error is built from that failure under every schedule,
    whether or not the other direction failed too; its cause carries the
    text of the collaborator's error and does not wrap it. *)
Theorem relay_reports_client_to_remote_error_first
    (sched : list Action) (s : Session) (err : error) :
  Done p = false ->
  ~ In Shutdown sched ->
  CopyFromClientToRemote (Proxyhandler p) = Some err ->
  fst (relay p sched s)
  = Some (MkError RequestReplyHostUnreachable
            (GoError ("error on copy from Client to Remote: " ++ Error_string err)%string
                     None)).
Proof.
  intros Hdone Hsched Hfail.
  set (st := relay_run p (sched ++ fair) (relay_init p s)).
  assert (Hlive : live_inv p st).
  { apply (relay_run_invariant p (live_inv p) (fun a => a <> Shutdown)).
    - intros; now apply live_inv_step.
    - apply Forall_app. split; [|apply fair_not_shutdown].
      apply Forall_forall. intros a Ha Heq. subst. contradiction.
    - unfold live_inv. cbn. intuition congruence. }
  destruct (fair_returns p (relay_run p sched (relay_init p s))) as [H1 H2].
  rewrite <- relay_run_app in H1, H2. fold st in H1, H2.
  destruct Hlive as (_ & Hc1 & Hc2).
  unfold relay. cbn [fst]. fold st.
  rewrite (collect_spec st _ _ (Hc1 H1) (Hc2 H2)).
  unfold clientToRemote_report. rewrite Hfail. reflexivity.
Qed.

End RelayMore.

(** * Further properties of the session *)

Section SessionMore.
Import Connection Socks Observe.

Variable cd : Codec.
Variable p : Proxy.

Lemma handleConnect_cases (s s1 : Session) (r : option Error) :
  handleConnect cd p s = (r, s1) ->
  (r <> None /\ trace s1 = trace s ++ [EvRead])
  \/ trace s1 = trace s ++ [EvRead; EvWrite [x05; x00]].
Proof.
  unfold handleConnect.
  pose proof (clientRead_trace p s) as Hr.
  destruct (clientRead p s) as [[buf [err|]] s0]; cbn [snd] in Hr.
  { intros H; inversion H; subst. left. split; [discriminate|auto]. }
  destruct (parseHeader cd buf) as [header|err].
  2:{ intros H; inversion H; subst. left. split; [discriminate|auto]. }
  destruct (Byte.eqb (Version header) Version4).
  { intros H; inversion H; subst. left. split; [discriminate|auto]. }
  destruct (Byte.eqb (Version header) Version5).
  2:{ intros H; inversion H; subst. left. split; [discriminate|auto]. }
  destruct (negb (methodSupported (Methods header))).
  { intros H; inversion H; subst. left. split; [discriminate|auto]. }
  pose proof (clientWrite_trace p [Version5; MethodNoAuthRequired] s0) as Hw.
  destruct (clientWrite p [Version5; MethodNoAuthRequired] s0) as [[err|] s2];
    cbn [snd] in Hw; intros H; inversion H; subst; right;
    rewrite Hw, Hr, <- app_assoc; reflexivity.
Qed.

Lemma handleRequest_cases (s s1 : Session) (r : Request + Error) :
  handleRequest cd p s = (r, s1) -> trace s1 = trace s ++ [EvRead].
Proof.
  unfold handleRequest.
  pose proof (clientRead_trace p s) as Hr.
  destruct (clientRead p s) as [[buf [err|]] s0]; cbn [snd] in Hr.
  { intros H; inversion H; subst. auto. }
  destruct (parseRequest cd buf); intros H; inversion H; subst; auto.
Qed.

Lemma handleRequestReply_cases (addr : option Addr) (s s1 : Session) (r : option Error) :
  handleRequestReply cd p addr s = (r, s1) ->
  (r <> None /\ s1 = s)
  \/ exists repl, trace s1 = trace s ++ [EvWrite repl].
Proof.
  unfold handleRequestReply.
  destruct (requestReply cd addr RequestReplySucceeded) as [repl|err].
  2:{ intros H; inversion H; subst. left. split; [discriminate|auto]. }
  pose proof (clientWrite_trace p repl s) as Hw.
  destruct (clientWrite p repl s) as [[err|] s2]; cbn [snd] in Hw;
    intros H; inversion H; subst; right; now exists repl.
Qed.

(** The relay only adds calls of the copy collaborators between the
    start of [Refresh] and [cancel()]. *)
Lemma relay_trace_more (sched : list Action) (s : Session) :
  exists more,
    trace (snd (relay p sched s)) = trace s ++ [EvRefresh] ++ more ++ [EvCancel]
    /\ forallb is_copy more = true.
Proof.
  set (st := relay_run p (sched ++ fair) (relay_init p s)).
  assert (Hinv : calls_inv (trace s ++ [EvRefresh]) st).
  { apply (relay_run_invariant p (calls_inv (trace s ++ [EvRefresh])) (fun _ => True)).
    - intros; now apply calls_inv_step.
    - apply Forall_forall; auto.
    - exists []. cbn. rewrite app_nil_r. repeat split; auto. }
  destruct Hinv as (more & Hev & Hcopy & _).
  exists more. unfold relay. cbn [snd trace]. fold st.
  rewrite Hev, <- !app_assoc. auto.
Qed.

(** Every session ends in one of seven ways, and [Cleanup] comes
    last. *)
Lemma socks_shape (sched : list Action) (s : Session) :
  exists evs,
    trace (snd (socks cd p sched s)) = trace s ++ evs ++ [EvCleanup]
    /\ session_shape evs.
Proof.
  unfold socks.
  destruct (handleConnect cd p s) as [r1 s1] eqn:H1.
  apply handleConnect_cases in H1.
  destruct r1 as [e1|].
  { destruct H1 as [[_ Ht]|Ht]; cbn [snd log trace]; rewrite Ht.
    - exists [EvRead]. split; [now rewrite <- app_assoc|constructor].
    - exists [EvRead; EvWrite [x05; x00]].
      split; [now rewrite <- app_assoc|constructor]. }
  destruct H1 as [[Hn _]|Ht1]; [congruence|].
  destruct (handleRequest cd p s1) as [r2 s2] eqn:H2.
  apply handleRequest_cases in H2.
  destruct r2 as [request|e2].
  2:{ exists [EvRead; EvWrite [x05; x00]; EvRead].
      cbn [snd log trace]. rewrite H2, Ht1.
      split; [now rewrite <- !app_assoc|constructor]. }
  destruct (PreHandler (Proxyhandler p) request) as [remote|e3].
  2:{ exists [EvRead; EvWrite [x05; x00]; EvRead; EvPreHandler].
      cbn [snd log trace]. rewrite H2, Ht1.
      split; [now rewrite <- !app_assoc|constructor]. }
  destruct (handleRequestReply cd p (LocalAddr remote) (log EvPreHandler s2))
    as [r4 s3] eqn:H4.
  apply handleRequestReply_cases in H4.
  destruct r4 as [e4|].
  { destruct H4 as [[_ Hs]|[repl Ht]]; cbn [snd log trace].
    - exists [EvRead; EvWrite [x05; x00]; EvRead; EvPreHandler; EvCloseRemote].
      rewrite Hs. cbn [log trace]. rewrite H2, Ht1.
      split; [now rewrite <- !app_assoc|constructor].
    - exists [EvRead; EvWrite [x05; x00]; EvRead; EvPreHandler;
              EvWrite repl; EvCloseRemote].
      rewrite Ht. cbn [log trace]. rewrite H2, Ht1.
      split; [now rewrite <- !app_assoc|constructor]. }
  destruct H4 as [[Hn _]|[repl Ht3]]; [congruence|].
  destruct (relay_trace_more sched s3) as (more & Hrel & Hcopy).
  destruct (relay p sched s3) as [r5 s5]. cbn [snd] in Hrel.
  cbn [log trace] in Ht3.
  exists ([EvRead; EvWrite [x05; x00]; EvRead; EvPreHandler; EvWrite repl; EvRefresh]
          ++ more ++ [EvCancel; EvCloseRemote]).
  cbn [snd log trace]. rewrite Hrel, Ht3, H2, Ht1.
  split; [|now constructor].
  repeat (rewrite <- app_assoc; cbn [app]). reflexivity.
Qed.

Lemma count_copy_only (f : Event -> bool) (more : list Event) :
  (forall ev, is_copy ev = true -> f ev = false) ->
  forallb is_copy more = true ->
  count f more = 0.
Proof.
  intros Hf. unfold count. induction more as [|ev more IH]; [reflexivity|].
  cbn [forallb filter]. intros H. apply andb_prop in H. destruct H as [Hev Hmore].
  rewrite (Hf ev Hev). auto.
Qed.

Ltac copy_free := intros [] H; cbn in *; congruence.

Ltac count_shape Hcopy :=
  rewrite ?count_app;
  rewrite ?(count_copy_only is_read _ ltac:(copy_free) Hcopy),
          ?(count_copy_only is_write _ ltac:(copy_free) Hcopy),
          ?(count_copy_only is_preHandler _ ltac:(copy_free) Hcopy),
          ?(count_copy_only is_refresh _ ltac:(copy_free) Hcopy),
          ?(count_copy_only is_closeRemote _ ltac:(copy_free) Hcopy),
          ?(count_copy_only is_cleanup _ ltac:(copy_free) Hcopy);
  cbn.



(** What [handle] adds to the trace of [socks]: at most one write, then
    the close of the client connection. *)
Lemma handle_trace_split (sched : list Action) (conn : Conn) :
  exists reply,
    trace (handle cd p sched conn)
    = trace (snd (socks cd p sched (MkSession conn []))) ++ reply ++ [EvCloseClient]
    /\ (reply = [] \/ exists data, reply = [EvWrite data]).
Proof.
  unfold handle.
  destruct (socks cd p sched (MkSession conn [])) as [[err|] s1]; cbn [fst snd].
  - unfold socksErrorReply.
    destruct (requestReply cd None (Reason err)) as [repl|e]; cbn [snd log trace].
    + pose proof (clientWrite_trace p repl s1) as Hw.
      exists [EvWrite repl]. split; [|right; now exists repl].
      destruct (clientWrite p repl s1) as [[e'|] s2]; cbn [fst snd] in *;
        rewrite Hw, <- app_assoc; reflexivity.
    + exists []. auto.
  - exists []. auto.
Qed.

(** X11: a session reads from the client at least once and at most
    twice, writes to it at most three times (the selection reply, the
    success reply and one error reply), dials at most once, closes at
    most one remote and calls [Cleanup] exactly once. *)
Theorem handle_io_budget (sched : list Action) (conn : Conn) :
  1 <= count is_read (trace (handle cd p sched conn)) <= 2
  /\ count is_write (trace (handle cd p sched conn)) <= 3
  /\ count is_preHandler (trace (handle cd p sched conn)) <= 1
  /\ count is_closeRemote (trace (handle cd p sched conn)) <= 1
  /\ count is_cleanup (trace (handle cd p sched conn)) = 1.
Proof.
  destruct (handle_trace_split sched conn) as (reply & Hhandle & Hreply).
  destruct (socks_shape sched (MkSession conn [])) as (evs & Htrace & Hshape).
  rewrite Hhandle, Htrace. cbn [trace app].
  destruct Hreply as [->|[data ->]];
    destruct Hshape as [| | | | |repl|repl more Hcopy]; count_shape Hcopy; lia.
Qed.

(** X12: the reason of a failed session is one of the five the engine
    assigns itself (ConnectionRefused, CommandNotSupported,
    MethodNotSupported, GeneralFailure, HostUnreachable) unless the
    whole error comes, unchanged, from [parseRequest] or from
    [PreHandler]. *)
Theorem socks_error_provenance (sched : list Action) (s : Session) (e : Error) :
  fst (socks cd p sched s) = Some e ->
  In (Reason e)
     [RequestReplyConnectionRefused; RequestReplyCommandNotSupported;
      RequestReplyMethodNotSupported; RequestReplyGeneralFailure;
      RequestReplyHostUnreachable]
  \/ (exists buf, parseRequest cd buf = inr e)
  \/ (exists request, PreHandler (Proxyhandler p) request = inr e).
Proof.
  unfold socks.
  destruct (handleConnect cd p s) as [r1 s1] eqn:H1.
  destruct r1 as [e1|].
  { cbn [fst]. intros H; inversion H; subst e1. left.
    unfold handleConnect in H1.
    destruct (clientRead p s) as [[buf [err|]] s0];
      [inversion H1; subst; cbn; auto|].
    destruct (parseHeader cd buf) as [header|err];
      [|inversion H1; subst; cbn; auto].
    destruct (Byte.eqb (Version header) Version4);
      [inversion H1; subst; cbn; auto|].
    destruct (Byte.eqb (Version header) Version5);
      [|inversion H1; subst; cbn; auto].
    destruct (negb (methodSupported (Methods header)));
      [inversion H1; subst; cbn; auto|].
    destruct (clientWrite p [Version5; MethodNoAuthRequired] s0) as [[err|] s2];
      inversion H1; subst; cbn; auto. }
  destruct (handleRequest cd p s1) as [r2 s2] eqn:H2.
  destruct r2 as [request|e2].
  2:{ cbn [fst]. intros H; inversion H; subst e2.
      unfold handleRequest in H2.
      destruct (clientRead p s1) as [[buf [err|]] s0];
        [inversion H2; subst; left; cbn; auto|].
      destruct (parseRequest cd buf) as [request|err2] eqn:Hparse;
        inversion H2; subst. right; left. now exists buf. }
  destruct (PreHandler (Proxyhandler p) request) as [remote|e3] eqn:H3.
  2:{ cbn [fst]. intros H; inversion H; subst e3. right; right. now exists request. }
  destruct (handleRequestReply cd p (LocalAddr remote) (log EvPreHandler s2))
    as [r4 s3] eqn:H4.
  destruct r4 as [e4|].
  { cbn [fst]. intros H; inversion H; subst e4. left.
    unfold handleRequestReply in H4.
    destruct (requestReply cd (LocalAddr remote) RequestReplySucceeded) as [repl|err];
      [|inversion H4; subst; cbn; auto].
    destruct (clientWrite p repl (log EvPreHandler s2)) as [[err|] s4];
      inversion H4; subst; cbn; auto. }
  unfold relay, collect. cbn [fst].
  destruct (receive _) as [err1|]; [intros H; inversion H; subst; left; cbn; auto 6|].
  destruct (receive _) as [err2|]; intros H; inversion H; subst; left; cbn; auto 6.
Qed.

(** X13: a client that sends no greeting before the deadline is
    answered: the session fails with ConnectionRefused around the
    timeout, [Cleanup] runs, and one reply with reason
    ConnectionRefused is written before the connection is closed. *)
Theorem handle_silent_client (sched : list Action) (conn : Conn) (repl : list byte) :
  r_running (reader_run (Timeout p) conn) = true ->
  requestReply cd None RequestReplyConnectionRefused = inl repl ->
  fst (socks cd p sched (MkSession conn []))
  = Some (MkError RequestReplyConnectionRefused read_timeout_error)
  /\ trace (handle cd p sched conn)
     = [EvRead; EvCleanup; EvWrite repl; EvCloseClient].
Proof.
  intros Hrun Hrepl.
  destruct (reader_running_silent _ _ Hrun) as [Herr Hdone].
  assert (Hhc : handleConnect cd p (MkSession conn [])
                = (Some (MkError RequestReplyConnectionRefused read_timeout_error),
                   MkSession (r_conn (reader_run (Timeout p) conn)) [EvRead])).
  { unfold handleConnect, clientRead, connectionRead, reader_select.
    cbn [client trace]. now rewrite Herr, Hdone. }
  assert (Hsocks : socks cd p sched (MkSession conn [])
                   = (Some (MkError RequestReplyConnectionRefused read_timeout_error),
                      MkSession (r_conn (reader_run (Timeout p) conn))
                                [EvRead; EvCleanup])).
  { unfold socks. now rewrite Hhc. }
  split; [now rewrite Hsocks|].
  unfold handle. rewrite Hsocks. cbn [Reason]. unfold socksErrorReply.
  rewrite Hrepl.
  pose proof (clientWrite_trace p repl
                (MkSession (r_conn (reader_run (Timeout p) conn)) [EvRead; EvCleanup]))
    as Hw.
  destruct (clientWrite p repl _) as [[err|] s2]; cbn [snd log trace] in *;
    now rewrite Hw.
Qed.





End SessionMore.

(** * The further properties at concrete sessions *)

Section MoreInstances.
Import Connection Socks Observe SpecCodec Scenario.

(** Two one-byte fragments: the first is returned, the second is still
    to come. *)
Lemma connectionRead_returns_prefix_witness :
  connectionRead (MkConn [RBytes [x01]; RBytes [x02]] [] []) 5
  = (([x01], None), MkConn [RBytes [x02]] [] [])
  /\ stream [RBytes [x01]; RBytes [x02]] = [x01] ++ stream [RBytes [x02]].
Proof.
  split; [reflexivity|].
  apply (connectionRead_returns_prefix
           (MkConn [RBytes [x01]; RBytes [x02]] [] [])
           (MkConn [RBytes [x02]] [] []) 5 [x01] eq_refl).
Defined.

(** Two full chunks and then silence: a timeout, whatever the
    deadline. *)
Lemma connectionRead_full_chunks_time_out_witness :
  fst (connectionRead (MkConn (map RBytes [full_chunk; full_chunk]) [] []) 7)
  = ([], Some read_timeout_error).
Proof.
  apply connectionRead_full_chunks_time_out. repeat constructor.
Defined.


(** The short writes of C2: success, and three bytes on the wire. *)
Lemma connectionWrite_success_length_witness :
  fst (connectionWrite (MkConn [] [WAccept 2; WAccept 1] []) [x01; x02; x03] 2) = None
  /\ List.length
       (wire (snd (connectionWrite (MkConn [] [WAccept 2; WAccept 1] [])
                     [x01; x02; x03] 2)))
     = 3.
Proof.
  split; [reflexivity|].
  apply (proj1 (connectionWrite_success_length
                  (MkConn [] [WAccept 2; WAccept 1] []) [x01; x02; x03] 2 eq_refl)).
Defined.

(** One byte taken, then every write taken whole: at deadline 3 the
    wire carries [01], then [data] twice, and the call has timed out. *)
Lemma connectionWrite_short_then_whole_times_out_witness :
  connectionWrite (MkConn [] (WAccept 1 :: repeat (WAccept 8) 3) [])
    [x01; x02; x03] 3
  = (Some write_timeout_error,
     MkConn [] (repeat (WAccept 8) (4 - 3))
       ([] ++ firstn 1 [x01; x02; x03]
           ++ List.concat (repeat [x01; x02; x03] (3 - 1)))).
Proof.
  apply connectionWrite_short_then_whole_times_out; cbn; lia.
Defined.

(** [p.Done] is closed between the two starts: only the first
    collaborator is called, and its failure is the result. *)
Lemma relay_shutdown_between_starts_witness :
  Done (proxy false (Some reset) (Some reset)) = false
  /\ relay (proxy false (Some reset) (Some reset))
        [StartClientToRemote; Shutdown; StartRemoteToClient]
        (MkSession (client_sending []) [])
     = (Some (MkError RequestReplyHostUnreachable
                (Errorf_v "error on copy from Client to Remote: " reset)),
        MkSession (client_sending [])
          [EvRefresh; EvCopyFromClientToRemote; EvCancel]).
Proof.
  split; [reflexivity|].
  apply (proj1 (relay_shutdown_between_starts
                  (proxy false (Some reset) (Some reset))
                  [StartRemoteToClient] (MkSession (client_sending []) []) eq_refl)).
Defined.

(** Both copies fail and the remote-to-client copy returns first: the
    result is built from the client-to-remote failure. *)
Lemma relay_reports_client_to_remote_error_first_witness :
  fst (relay (proxy false (Some reset) (Some EOF))
         [StartRemoteToClient; ReturnRemoteToClient]
         (MkSession (client_sending []) []))
  = Some (MkError RequestReplyHostUnreachable
            (GoError "error on copy from Client to Remote: connection reset by peer"
                     None)).
Proof.
  apply (relay_reports_client_to_remote_error_first
           (proxy false (Some reset) (Some EOF))
           [StartRemoteToClient; ReturnRemoteToClient]
           (MkSession (client_sending []) []) reset eq_refl).
  - cbn. intros H. repeat (destruct H as [H|H]; [discriminate H|]). exact H.
  - reflexivity.
Defined.

(** A version 4 greeting: the reason is one of the engine's own. *)
Lemma socks_error_provenance_witness :
  fst (socks codec (proxy false None None) []
         (MkSession (client_sending [[x04; x01; x00]]) []))
  = Some (MkError RequestReplyCommandNotSupported (Errorf "socks4 not yet implemented"))
  /\ (In RequestReplyCommandNotSupported
         [RequestReplyConnectionRefused; RequestReplyCommandNotSupported;
          RequestReplyMethodNotSupported; RequestReplyGeneralFailure;
          RequestReplyHostUnreachable]
      \/ (exists buf,
            parseRequest codec buf
            = inr (MkError RequestReplyCommandNotSupported
                     (Errorf "socks4 not yet implemented")))
      \/ (exists request,
            PreHandler (Proxyhandler (proxy false None None)) request
            = inr (MkError RequestReplyCommandNotSupported
                     (Errorf "socks4 not yet implemented")))).
Proof.
  split; [reflexivity|].
  apply (socks_error_provenance codec (proxy false None None) []
           (MkSession (client_sending [[x04; x01; x00]]) [])
           (MkError RequestReplyCommandNotSupported (Errorf "socks4 not yet implemented"))
           eq_refl).
Defined.

(** A client that sends nothing is written a ConnectionRefused reply. *)
Lemma handle_silent_client_witness :
  r_running (reader_run (Timeout (proxy false None None)) (client_sending [])) = true
  /\ trace (handle codec (proxy false None None) [] (client_sending []))
     = [EvRead; EvCleanup;
        EvWrite [x05; x05; x00; x01; x00; x00; x00; x00; x00; x00];
        EvCloseClient].
Proof.
  split; [reflexivity|].
  apply (proj2 (handle_silent_client codec (proxy false None None) []
                  (client_sending [])
                  [x05; x05; x00; x01; x00; x00; x00; x00; x00; x00]
                  eq_refl eq_refl)).
Defined.


End MoreInstances.
